(** * LGPMD: the RDF -> S(q) transform and the intermolecular RDF accumulator

    A shallow embedding of [utility/rdf_analysis.py] (the tutorial and the
    paper copy hold the same [rdf2sq]) and the properties its design
    document states about it.

    Number model.  [rdf2sq] works on numpy float64 arrays.  It is embedded
    twice.  Over the real numbers [R] (modules [Np], [Transform]) every
    finite float64 value is read as the real it denotes and [+], [-], [*],
    [sin] are exact; this is the formula the code evaluates, and the one
    float64 effect that needs no rounding, a division by a zero grid point,
    is kept: numpy returns a non-finite value (nan or an infinity) there and
    goes on, and so does the model ([NonFinite]).  Over IEEE-754 binary64
    values (modules [F64], [Np64], [Transform64]: [spec_float] with 53 bits
    of precision) every operation rounds as numpy's does; what the exact
    formula promises and rounding breaks is settled there.  The default
    search radius of [intermolecular_rdf] is a statement about representable
    numbers, so that part is embedded over binary32 values ([spec_float]
    with 24 bits of precision). *)

From Stdlib Require Import String.
From Stdlib Require Import Reals Lra Lia List ZArith Bool Arith QArith_base.
From Stdlib Require Import Floats.SpecFloat.
Import ListNotations.

Set Implicit Arguments.

(** ** Python exceptions and results *)

Module Py.

(** The exceptions the embedded code can raise, by what raises them. *)
Inductive exn : Type :=
| IndexError                         (* an index past the end of a sequence *)
| BroadcastError                     (* ValueError: operands could not be broadcast together *)
| NotInList (x : string)             (* ValueError: x is not in list *)
| InvalidArgument (what : string)    (* ValueError raised by a freud constructor *)
| OverflowError                      (* an integer that does not fit an unsigned int *)
| UnboundLocalError (var : string)   (* a local variable read before assignment *)
| ZeroDivisionError.                 (* int / int with a zero divisor *)

Inductive result (A : Type) : Type :=
| Ok (a : A)
| Raise (e : exn).
Arguments Ok {A} a.
Arguments Raise {A} e.

(** Modelled from the spec: the error classes of the design document
    (section 7).  The Python code raises built-in exceptions only and
    names no classes of its own; the design document sorts failures by
    cause: malformed numeric ranges, too-short or empty sequences and
    out-of-range bin counts are InvalidInput, a species name absent from
    the type registry is Lookup.  The two remaining exceptions are given
    no class there. *)
Inductive category : Type := InvalidInput | Lookup | Unclassified.

Definition classify (e : exn) : category :=
  match e with
  | IndexError | BroadcastError | InvalidArgument _ | OverflowError => InvalidInput
  | NotInList _ => Lookup
  | UnboundLocalError _ | ZeroDivisionError => Unclassified
  end.

Definition bind {A B} (m : result A) (k : A -> result B) : result B :=
  match m with
  | Ok a => k a
  | Raise e => Raise e
  end.

(** [l[i]] for a non-negative index. *)
Definition getitem {A} (l : list A) (i : nat) : result A :=
  match nth_error l i with
  | Some a => Ok a
  | None => Raise IndexError
  end.

End Py.
Import Py.

Notation "x <- m ;; k" := (Py.bind m (fun x => k))
  (at level 61, m at next level, right associativity).

(** ** numpy on one-dimensional float64 arrays, over [R] *)

Module Np.

Local Open Scope R_scope.

(** A float64 scalar computed by a division: a real, or the non-finite
    value (nan, inf) numpy produces when the divisor is zero. *)
Inductive npfloat : Type :=
| Real (x : R)
| NonFinite.

Definition ndarray := list R.

(** [x / y] on float64 scalars: no exception, a non-finite value at [y = 0]. *)
Definition div (x y : R) : npfloat :=
  if Req_EM_T y 0 then NonFinite else Real (x / y).

(** scalar + npfloat: a non-finite operand stays non-finite. *)
Definition add_scalar (c : R) (v : npfloat) : npfloat :=
  match v with
  | Real x => Real (c + x)
  | NonFinite => NonFinite
  end.

(** [y[-1] = v] *)
Definition set_last (y : ndarray) (v : R) : ndarray :=
  match y with
  | [] => []
  | _ => removelast y ++ [v]
  end.

(** [np.arange(0, num)] as floats. *)
Definition arange (num : nat) : ndarray := map INR (seq 0 num).

(** [np.linspace(start, stop, num)] with [endpoint=True], following
    numpy's [function_base.linspace]. *)
Definition linspace (start stop : R) (num : nat) : ndarray :=
  let div := (num - 1)%nat in
  let delta := stop - start in
  let y := arange num in
  let y :=
    if (0 <? div)%nat then
      let step := delta / INR div in
      if Req_EM_T step 0
      then map (fun v => v / INR div * delta) y
      else map (fun v => v * step) y
    else map (fun v => v * delta) y in
  let y := map (fun v => v + start) y in
  if (1 <? num)%nat then set_last y stop else y.

(** [np.zeros(n)] *)
Definition zeros (n : nat) : list npfloat := repeat (Real 0) n.

(** [a[j] = v] for [j] in range (the loop of [rdf2sq] never leaves it). *)
Fixpoint setitem {A} (a : list A) (j : nat) (v : A) : list A :=
  match a, j with
  | [], _ => []
  | _ :: t, O => v :: t
  | h :: t, S j' => h :: setitem t j' v
  end.

(** Elementwise binary operation on two 1-d arrays with numpy's
    broadcasting: equal lengths pair up, a length-1 operand is stretched,
    anything else is a ValueError. *)
Definition broadcast2 (f : R -> R -> R) (xs ys : ndarray) : result ndarray :=
  if (length xs =? length ys)%nat then Ok (map (fun p => f (fst p) (snd p)) (combine xs ys))
  else match xs, ys with
       | [x], _ => Ok (map (f x) ys)
       | _, [y] => Ok (map (fun x => f x y) xs)
       | _, _ => Raise BroadcastError
       end.

(** [a.sum()] *)
Definition sum (a : ndarray) : R := fold_left Rplus a 0.

(** [np.trapz(y, dx=d)]: [(d * (y[1:] + y[:-1]) / 2.0).sum()]. *)
Definition trapz (y : ndarray) (d : R) : R :=
  sum (map (fun p => d * (fst p + snd p) / 2) (combine (tl y) (removelast y))).

End Np.

(** ** The RDF -> S(q) transform, [rdf2sq] *)

Module Transform.

Local Open Scope R_scope.
Import Np.

(** [r*(rdf-1)*np.sin(q*r)] *)
Definition integrand (r rdf : ndarray) (qj : R) : result ndarray :=
  a <- broadcast2 Rmult r (map (fun g => g - 1) rdf) ;;
  broadcast2 Rmult a (map sin (map (fun x => qj * x) r)).

(** The right-hand side of the assignment to [sq[j]]. *)
Definition sq_entry (r rdf : ndarray) (dr rho qj : R) : result npfloat :=
  y <- integrand r rdf qj ;;
  Ok (add_scalar 1 (div (4 * PI * rho * trapz y dr) qj)).

(** [for j in range(len(q)): sq[j] = ...], the loop over the indices
    still to visit. *)
Fixpoint fill (r rdf : ndarray) (dr rho : R) (q : ndarray)
         (js : list nat) (sq : list npfloat) : result (list npfloat) :=
  match js with
  | [] => Ok sq
  | j :: js' =>
      qj <- getitem q j ;;
      v <- sq_entry r rdf dr rho qj ;;
      fill r rdf dr rho q js' (setitem sq j v)
  end.

Definition rdf2sq (r rdf : ndarray) (Qmin Qmax rho : R)
  : result (ndarray * list npfloat) :=
  let q := linspace Qmin Qmax 1000 in
  r1 <- getitem r 1 ;;
  r0 <- getitem r 0 ;;
  let dr := r1 - r0 in
  let sq := zeros (length q) in
  sq <- fill r rdf dr rho q (seq 0 (length q)) sq ;;
  Ok (q, sq).

(** *** The transform as the design document words it *)

(** Left-to-right trapezoidal rule with a fixed step over [n] intervals
    of a sampled function [f 0, f 1, ..., f n]. *)
Fixpoint trapezoid_rule (dx : R) (f : nat -> R) (n : nat) : R :=
  match n with
  | O => 0
  | S k => trapezoid_rule dx f k + dx * (f k + f (S k)) / 2
  end.

(** The sampled integrand [r_i * (g(r_i) - 1) * sin(q * r_i)]. *)
Definition sample (radii gOfR : ndarray) (q : R) (i : nat) : R :=
  nth i radii 0 * (nth i gOfR 0 - 1) * sin (q * nth i radii 0).

(** The quadrature [T] over the supplied radius domain. *)
Definition quadrature (radii gOfR : ndarray) (q : R) : R :=
  trapezoid_rule (nth 1 radii 0 - nth 0 radii 0)
                 (sample radii gOfR q) (length radii - 1).

(** [S(q) = 1 + 4 pi rho (1/q) T], undefined where [1/q] is. *)
Definition S_of_q (radii gOfR : ndarray) (rho q : R) : npfloat :=
  match div 1 q with
  | Real inv => Real (1 + 4 * PI * rho * inv * quadrature radii gOfR q)
  | NonFinite => NonFinite
  end.

(** The deviation term [S(q) - 1]. *)
Definition deviation (s : npfloat) : npfloat :=
  match s with
  | Real x => Real (x - 1)
  | NonFinite => NonFinite
  end.

Definition scale (k : R) (s : npfloat) : npfloat :=
  match s with
  | Real x => Real (k * x)
  | NonFinite => NonFinite
  end.

(** *** The loop in closed form *)

(** The integrand where it exists. *)
Definition values (r g : ndarray) (qj : R) : ndarray :=
  match integrand r g qj with
  | Ok y => y
  | Raise _ => []
  end.

(** The value stored at a grid point. *)
Definition entry (r g : ndarray) (dr rho qj : R) : npfloat :=
  add_scalar 1 (div (4 * PI * rho * trapz (values r g qj) dr) qj).

End Transform.

(** ** IEEE-754 binary64 values *)

Module F64.

Definition prec : Z := 53.
Definition emax : Z := 1024.

(** np.float64 and Python's float, as the Standard Library's
    specification of floats: every operation rounds to nearest, ties to
    even, and overflows to an infinity. *)
Definition float64 : Type := spec_float.

Definition of_Z (n : Z) : float64 := binary_normalize prec emax n 0 false.
Definition of_nat (n : nat) : float64 := of_Z (Z.of_nat n).

Definition zero : float64 := S754_zero false.
Definition one : float64 := Eval vm_compute in of_Z 1.
Definition two : float64 := Eval vm_compute in of_Z 2.
Definition four : float64 := Eval vm_compute in of_Z 4.
Definition nan : float64 := S754_nan.

(** [np.pi], the float64 nearest to pi: 0x1.921fb54442d18p+1. *)
Definition pi : float64 := S754_finite false 7074237752028440 (-51).

Definition add : float64 -> float64 -> float64 := SFadd prec emax.
Definition sub : float64 -> float64 -> float64 := SFsub prec emax.
Definition mul : float64 -> float64 -> float64 := SFmul prec emax.
Definition div : float64 -> float64 -> float64 := SFdiv prec emax.

(** [x == y] and [x < y] on floats: false as soon as one side is nan,
    and the two zeros are equal. *)
Definition eqb : float64 -> float64 -> bool := SFeqb.
Definition ltb : float64 -> float64 -> bool := SFltb.

(** [np.isfinite] *)
Definition is_finite (x : float64) : bool :=
  match x with
  | S754_zero _ | S754_finite _ _ _ => true
  | S754_infinity _ | S754_nan => false
  end.

End F64.

(** ** numpy on one-dimensional float64 arrays, with rounding *)

Module Np64.

Import F64.

Definition ndarray : Type := list float64.

(** The two numpy routines whose value IEEE-754 does not fix: the sine
    (numpy calls the platform's) and the sum of an array (numpy adds
    pairwise, in blocks, not in index order).  The embedding takes them
    as given. *)
Class Numpy : Type := {
  np_sin : float64 -> float64;
  np_sum : ndarray -> float64
}.

(** [y[-1] = v] *)
Definition set_last (y : ndarray) (v : float64) : ndarray :=
  match y with
  | [] => []
  | _ => removelast y ++ [v]
  end.

(** [np.arange(0, num)] as floats. *)
Definition arange (num : nat) : ndarray := map of_nat (seq 0 num).

(** [np.linspace(start, stop, num)] with [endpoint=True], following
    numpy's [function_base.linspace] operation by operation: the
    difference, the step, one product and one sum per point, and the last
    point overwritten with [stop].  (numpy first multiplies [start] and
    [stop] by 1.0, which changes no float64.) *)
Definition linspace (start stop : float64) (num : nat) : ndarray :=
  let div := (num - 1)%nat in
  let delta := sub stop start in
  let y := arange num in
  let y :=
    if (0 <? div)%nat then
      let step := F64.div delta (of_nat div) in
      if eqb step zero
      then map (fun v => mul (F64.div v (of_nat div)) delta) y
      else map (fun v => mul v step) y
    else map (fun v => mul v delta) y in
  let y := map (fun v => add v start) y in
  if (1 <? num)%nat then set_last y stop else y.

(** The step [delta / div] of a grid of [num] points. *)
Definition linspace_step (start stop : float64) (num : nat) : float64 :=
  F64.div (sub stop start) (of_nat (num - 1)).

(** [np.zeros(n)] *)
Definition zeros (n : nat) : ndarray := repeat zero n.

(** Elementwise binary operation with numpy's broadcasting. *)
Definition broadcast2 (f : float64 -> float64 -> float64) (xs ys : ndarray)
  : result ndarray :=
  if (length xs =? length ys)%nat then Ok (map (fun p => f (fst p) (snd p)) (combine xs ys))
  else match xs, ys with
       | [x], _ => Ok (map (f x) ys)
       | _, [y] => Ok (map (fun x => f x y) xs)
       | _, _ => Raise BroadcastError
       end.

Section WithNumpy.

Context {numpy : Numpy}.

(** [np.trapz(y, dx=d)]: [(d * (y[1:] + y[:-1]) / 2.0).sum()]. *)
Definition trapz (y : ndarray) (d : float64) : float64 :=
  np_sum (map (fun p => F64.div (mul d (add (fst p) (snd p))) two)
              (combine (tl y) (removelast y))).

End WithNumpy.

End Np64.

(** ** [rdf2sq] in binary64 *)

Module Transform64.

Import F64 Np64.

Section WithNumpy.

Context {numpy : Numpy}.

(** [r*(rdf-1)*np.sin(q*r)] *)
Definition integrand (r rdf : ndarray) (qj : float64) : result ndarray :=
  a <- broadcast2 mul r (map (fun g => sub g one) rdf) ;;
  broadcast2 mul a (map np_sin (map (fun x => mul qj x) r)).

(** The right-hand side of the assignment to [sq[j]]:
    [1 + (((4*np.pi)*rho)*np.trapz(...))/q[j]]. *)
Definition sq_entry (r rdf : ndarray) (dr rho qj : float64) : result float64 :=
  y <- integrand r rdf qj ;;
  Ok (add one (div (mul (mul (mul four pi) rho) (trapz y dr)) qj)).

Fixpoint fill (r rdf : ndarray) (dr rho : float64) (q : ndarray)
         (js : list nat) (sq : ndarray) : result ndarray :=
  match js with
  | [] => Ok sq
  | j :: js' =>
      qj <- getitem q j ;;
      v <- sq_entry r rdf dr rho qj ;;
      fill r rdf dr rho q js' (Np.setitem sq j v)
  end.

Definition rdf2sq (r rdf : ndarray) (Qmin Qmax rho : float64)
  : result (ndarray * ndarray) :=
  let q := linspace Qmin Qmax 1000 in
  r1 <- getitem r 1 ;;
  r0 <- getitem r 0 ;;
  let dr := sub r1 r0 in
  let sq := zeros (length q) in
  sq <- fill r rdf dr rho q (seq 0 (length q)) sq ;;
  Ok (q, sq).

(** The integrand where it exists, and the value stored at a grid
    point. *)
Definition values (r g : ndarray) (qj : float64) : ndarray :=
  match integrand r g qj with
  | Ok y => y
  | Raise _ => []
  end.

Definition entry (r g : ndarray) (dr rho qj : float64) : float64 :=
  add one (div (mul (mul (mul four pi) rho) (trapz (values r g qj) dr)) qj).

End WithNumpy.

(** The deviation term [S(q) - 1], as a caller computes it. *)
Definition deviation (s : float64) : float64 := sub s one.

(** *** Two radii to run the code on *)

(** [1 + 2^-52], the float64 next to 1. *)
Definition one_next : float64 := S754_finite false 4503599627370497 (-52).

(** [np.sin(1.0)] and [np.sin(1.0000000000000002)]:
    0.8414709848078965 and 0.8414709848078966. *)
Definition sin_one : float64 := S754_finite false 7579296827247854 (-53).
Definition sin_one_next : float64 := S754_finite false 7579296827247855 (-53).

(** numpy's sine at the three arguments the runs below reach (a zero, 1
    and the float64 next to 1), and the sum of an array of one element,
    which is that element in every order of summation.  Elsewhere the sine
    is left undefined (nan) and the sum is taken in index order. *)
Definition sample_sin (x : float64) : float64 :=
  match x with
  | S754_zero _ => x
  | _ => if eqb x one then sin_one
         else if eqb x one_next then sin_one_next
         else nan
  end.

Definition sample_sum (a : ndarray) : float64 :=
  match a with
  | [] => zero
  | x :: rest => fold_left add rest x
  end.

Definition sample_numpy : Numpy :=
  {| np_sin := sample_sin; np_sum := sample_sum |}.

(** The same with both sines moved by [d] units in the last place, for
    a sine routine that does not round correctly. *)
Definition nearby_sin (d : Z) (x : float64) : float64 :=
  match x with
  | S754_zero _ => x
  | _ => if eqb x one then S754_finite false (Z.to_pos (7579296827247854 + d)) (-53)
         else if eqb x one_next
              then S754_finite false (Z.to_pos (7579296827247855 + d)) (-53)
              else nan
  end.

Definition nearby_numpy (d : Z) : Numpy :=
  {| np_sin := nearby_sin d; np_sum := sample_sum |}.

(** Radii 0 and 1 with g(r) = 2 on both. *)
Definition radii_0_1 : ndarray := [zero; one].
Definition g_2_2 : ndarray := [two; two].

(** The densities 1e-17 and 1e6 as float64. *)
Definition rho_1e_17 : float64 := S754_finite false 6490371073168535 (-109).
Definition k_1e6 : float64 := Eval vm_compute in of_Z 1000000.

End Transform64.

(** ** IEEE-754 binary32 values *)

Module F32.

Definition prec : Z := 24.
Definition emax : Z := 128.

(** np.float32, as the Standard Library's specification of floats;
    finite values are kept canonical ([valid_binary prec emax]). *)
Definition float32 : Type := spec_float.

Definition zero : float32 := S754_zero false.
Definition one_half : float32 := S754_finite false (2 ^ 23) (-24).
Definition max_float : float32 := S754_finite false (2 ^ 24 - 1) (emax - prec).
Definition of_Z (n : Z) : float32 := binary_normalize prec emax n 0 false.

Definition mul : float32 -> float32 -> float32 := SFmul prec emax.
Definition ltb : float32 -> float32 -> bool := SFltb.
Definition leb : float32 -> float32 -> bool := SFleb.

Definition is_nan (x : float32) : bool :=
  match x with
  | S754_nan => true
  | _ => false
  end.

(** The neighbour towards zero of the positive finite [m * 2^e]. *)
Definition pred_pos (m : positive) (e : Z) : float32 :=
  if (m =? 1)%positive then S754_zero false
  else if ((m =? 2 ^ 23)%positive && (emin prec emax <? e)%Z)%bool
       then S754_finite false (2 ^ 24 - 1) (e - 1)
       else S754_finite false (Pos.pred m) e.

(** The neighbour away from zero of the positive finite [m * 2^e]. *)
Definition succ_pos (m : positive) (e : Z) : float32 :=
  if (m =? 2 ^ 24 - 1)%positive
  then if (e =? emax - prec)%Z then S754_infinity false
       else S754_finite false (2 ^ 23) (e + 1)
  else S754_finite false (Pos.succ m) e.

(** One representable step towards minus infinity. *)
Definition step_down (x : float32) : float32 :=
  match x with
  | S754_nan => S754_nan
  | S754_zero _ => S754_finite true 1 (emin prec emax)
  | S754_infinity false => max_float
  | S754_infinity true => x
  | S754_finite false m e => pred_pos m e
  | S754_finite true m e => SFopp (succ_pos m e)
  end.

(** One representable step towards plus infinity. *)
Definition step_up (x : float32) : float32 := SFopp (step_down (SFopp x)).

(** [np.nextafter(x1, x2, dtype=np.float32)]: the next representable
    value after [x1] in the direction of [x2]. *)
Definition nextafter (x1 x2 : float32) : float32 :=
  match SFcompare x1 x2 with
  | None => S754_nan
  | Some Eq => x2
  | Some Lt => step_up x1
  | Some Gt => step_down x1
  end.

(** numpy's [maximum] on floats: [(a >= b || isnan(a)) ? a : b]. *)
Definition maximum (a b : float32) : float32 :=
  if (is_nan a || leb b a)%bool then a else b.

(** numpy's [minimum], used to speak of the smallest box edge. *)
Definition minimum (a b : float32) : float32 :=
  if (is_nan a || leb a b)%bool then a else b.

End F32.

(** ** Trajectory frames (gsd) *)

Module Gsd.

Import F32.

Definition vec3 : Type := float32 * float32 * float32.

(** [configuration.box]: three edge lengths and three tilt factors. *)
Record box : Type := {
  Lx : float32; Ly : float32; Lz : float32;
  xy : float32; xz : float32; yz : float32
}.

Record particles : Type := {
  N : nat;
  position : list vec3;
  typeid : list nat;
  types : list string
}.

Record frame : Type := {
  frame_particles : particles;
  bonds_group : list (nat * nat);
  configuration_box : box
}.

(** [box[:3]] *)
Definition edges (b : box) : list float32 := [Lx b; Ly b; Lz b].

End Gsd.

(** ** More Python and numpy: slices, lookups, index arrays *)

Module PySeq.

(** A slice bound brought into [0, len], Python's [slice.indices]. *)
Definition clamp (len i : Z) : Z :=
  if (i <? 0)%Z then Z.max (i + len) 0 else Z.min i len.

(** [l[start:stop]]; [stop = None] runs to the end. *)
Definition slice {A} (l : list A) (start : Z) (stop : option Z) : list A :=
  let len := Z.of_nat (length l) in
  let lo := clamp len start in
  let hi := match stop with
            | None => len
            | Some s => clamp len s
            end in
  firstn (Z.to_nat (hi - lo)) (skipn (Z.to_nat lo) l).

(** [l.index(x)] *)
Fixpoint index (l : list string) (x : string) : result nat :=
  match l with
  | [] => Raise (NotInList x)
  | y :: t => if String.eqb y x then Ok O
              else i <- index t x ;; Ok (S i)
  end.

(** [a[mask]] for a boolean array [mask]: the shapes must agree. *)
Definition bool_index {A} (a : list A) (mask : list bool) : result (list A) :=
  if (length a =? length mask)%nat
  then Ok (map fst (filter snd (combine a mask)))
  else Raise IndexError.

(** [a[idx]] for an array of non-negative indices. *)
Fixpoint take {A} (a : list A) (idx : list nat) : result (list A) :=
  match idx with
  | [] => Ok []
  | i :: idx' =>
      x <- getitem a i ;;
      xs <- take a idx' ;;
      Ok (x :: xs)
  end.

(** [np.max(a)]: a reduction with [maximum]; empty arrays are refused. *)
Definition np_max (a : list F32.float32) : result F32.float32 :=
  match a with
  | [] => Raise (InvalidArgument "zero-size array")
  | x :: t => Ok (fold_left F32.maximum t x)
  end.

End PySeq.

(** ** The spatial-query collaborator (freud) *)

Module Freud.

Import F32 Gsd.

(** One entry of a neighbour list. *)
Record bond : Type := {
  query_point_index : nat;
  point_index : nat;
  distance : float32
}.

Definition nlist : Type := list bond.

(** A system: a box and the points in it. *)
Definition system : Type := (box * list vec3)%type.

(** What the code asks of freud and does not decide itself, left open:
    the pairs within a radius, pair distances under the minimum-image
    convention, and the connected components of a neighbour graph.  The
    three are taken to answer: what freud refuses on its own (a radius
    beyond half a box edge, a system without particles) is not modelled. *)
Class Oracle : Type := {
  (* AABBQuery.from_system(system).query(query_points,
       {"r_max": r_max, "exclude_ii": exclude_ii}).toNeighborList() *)
  query : system -> list vec3 -> float32 -> bool -> nlist;
  (* box.compute_distances(query_points, points) *)
  compute_distances : box -> list vec3 -> list vec3 -> list float32;
  (* Cluster().compute(system, neighbors=nlist); cluster_idx *)
  cluster : system -> nlist -> list nat
}.

(** [NeighborList.from_arrays(..., query_point_indices, point_indices,
    distances)] *)
Definition from_arrays (qs ps : list nat) (ds : list float32) : nlist :=
  map (fun t => {| query_point_index := fst (fst t);
                   point_index := snd (fst t);
                   distance := snd t |})
      (combine (combine qs ps) ds).

(** [nlist.filter(mask)]: the entries where the mask holds. *)
Definition filter_nlist (nl : nlist) (mask : list bool) : nlist :=
  map fst (filter snd (combine nl mask)).

(** The running state of a [freud.density.RDF]: its parameters and
    what has been folded into the histogram since the last reset. *)
Record RDF : Type := {
  rdf_bins : Z;
  rdf_r_max : float32;
  rdf_r_min : float32;
  rdf_accumulated : list (system * nlist)
}.

(** Modelled from the spec: the argument checks of the histogram
    constructor [freud.density.RDF(bins, r_max, r_min)].  freud is not
    part of this repository; the design document (section 4.2) gives the
    inputs that must be refused: a bin count below 1, a negative [r_min]
    and [r_min >= r_max].  [bins] is an unsigned int on the freud side, so
    a negative or too large Python integer fails in the conversion. *)
Definition RDF_new (bins : Z) (r_max r_min : float32) : result RDF :=
  if ((bins <? 0) || (2 ^ 32 <=? bins))%Z then Raise OverflowError
  else if (bins <? 1)%Z then Raise (InvalidArgument "bins")
  else if ltb r_min zero then Raise (InvalidArgument "r_min")
  else if leb r_max r_min then Raise (InvalidArgument "r_max")
  else Ok {| rdf_bins := bins; rdf_r_max := r_max; rdf_r_min := r_min;
             rdf_accumulated := [] |}.

(** [rdf.compute(system, neighbors=nlist, reset=reset)] *)
Definition RDF_compute (rdf : RDF) (s : system) (nl : nlist) (reset : bool) : RDF :=
  {| rdf_bins := rdf_bins rdf; rdf_r_max := rdf_r_max rdf; rdf_r_min := rdf_r_min rdf;
     rdf_accumulated := (if reset then [] else rdf_accumulated rdf) ++ [(s, nl)] |}.

End Freud.

(** ** The intermolecular RDF accumulator, [intermolecular_rdf] *)

Module Accumulator.

Import F32 Gsd PySeq Freud.

(** The calls made to the collaborator, in order. *)
Inductive event : Type :=
| Constructed                  (* freud.density.RDF(...) returned *)
| Clustered                    (* Cluster.compute *)
| Queried (pairs : nat)        (* a neighbour query, with the pairs found *)
| Accumulated (pairs : nat).   (* rdf.compute, with the pairs folded in *)

(** Computations that log their calls and may raise. *)
Definition M (A : Type) : Type := list event -> list event * result A.

Definition ret {A} (a : A) : M A := fun t => (t, Ok a).
Definition lift {A} (r : result A) : M A := fun t => (t, r).
Definition emit (e : event) : M unit := fun t => (t ++ [e], Ok tt).
Definition mbind {A B} (m : M A) (k : A -> M B) : M B :=
  fun t => match m t with
           | (t', Ok a) => k a t'
           | (t', Raise e) => (t', Raise e)
           end.

Notation "x <-- m ;;; k" := (mbind m (fun x => k))
  (at level 61, m at next level, right associativity).

Section WithFreud.

Context {freud : Oracle}.

(** [snap_molecule_indices]: one label per particle, equal labels for
    particles joined by bonds. *)
Definition snap_molecule_indices (snap : frame) : M (list nat) :=
  let sys : system := (configuration_box snap, position (frame_particles snap)) in
  let query_point_indices := map fst (bonds_group snap) in
  let point_indices := map snd (bonds_group snap) in
  qp <-- lift (take (snd sys) query_point_indices) ;;;
  p <-- lift (take (snd sys) point_indices) ;;;
  let distances := compute_distances (fst sys) qp p in
  let nl := from_arrays query_point_indices point_indices distances in
  _ <-- emit Clustered ;;;
  ret (cluster sys nl).

(** The default search radius: just below half the largest box edge. *)
Definition default_r_max (snap : frame) : result float32 :=
  m <- np_max (edges (configuration_box snap)) ;;
  Ok (nextafter (mul m one_half) zero).

(** What the code fixes before the loop. *)
Record setting : Type := {
  s_r_max : float32;
  s_type_A : list bool;
  s_type_B : list bool;
  s_molecules : option (list nat * list nat)   (* molecules_A, molecules_B *)
}.

(** The locals the loop assigns. *)
Record locals : Type := {
  l_rdf : RDF;
  l_pre_filter : option nat;
  l_post_filter : option nat
}.

(** Lines 29-40: the first frame, the radius, the histogram, the
    species masks and the molecule labels. *)
Definition setup (trajectory : list frame) (A_name B_name : string)
           (r_max : option float32) (r_min : float32) (bins : Z)
           (exclude_bonded : bool) : M (setting * RDF) :=
  snap <-- lift (getitem trajectory 0) ;;;
  r_max <-- lift (match r_max with
                  | None => default_r_max snap
                  | Some r => Ok r
                  end) ;;;
  rdf <-- lift (RDF_new bins r_max r_min) ;;;
  _ <-- emit Constructed ;;;
  iA <-- lift (index (types (frame_particles snap)) A_name) ;;;
  let type_A := map (Nat.eqb iA) (typeid (frame_particles snap)) in
  iB <-- lift (index (types (frame_particles snap)) B_name) ;;;
  let type_B := map (Nat.eqb iB) (typeid (frame_particles snap)) in
  molecules <--
    (if exclude_bonded then
       molecules <-- snap_molecule_indices snap ;;;
       molecules_A <-- lift (bool_index molecules type_A) ;;;
       molecules_B <-- lift (bool_index molecules type_B) ;;;
       ret (Some (molecules_A, molecules_B))
     else ret None) ;;;
  ret ({| s_r_max := r_max; s_type_A := type_A; s_type_B := type_B;
          s_molecules := molecules |}, rdf).

(** Lines 42-54: the neighbour list of one frame. *)
Definition frame_neighbors (A_name B_name : string) (s : setting) (snap : frame)
  : result (system * nlist) :=
  A_pos <- bool_index (position (frame_particles snap)) (s_type_A s) ;;
  BE <- (if String.eqb A_name B_name then Ok (A_pos, true)
         else B_pos <- bool_index (position (frame_particles snap)) (s_type_B s) ;;
              Ok (B_pos, false)) ;;
  let sys : system := (configuration_box snap, A_pos) in
  Ok (sys, query sys (fst BE) (s_r_max s) (snd BE)).

(** Lines 57-59: drop the pairs whose two labels are equal. *)
Definition drop_bonded (molecules_A molecules_B : list nat) (nl : nlist)
  : result nlist :=
  indices_A <- take molecules_A (map point_index nl) ;;
  indices_B <- take molecules_B (map query_point_index nl) ;;
  Ok (filter_nlist nl
        (map (fun p => negb (fst p =? snd p)%nat) (combine indices_A indices_B))).

(** The body of the loop over frames. *)
Definition process_frame (A_name B_name : string) (exclude_bonded : bool)
           (s : setting) (l : locals) (snap : frame) : M locals :=
  sn <-- lift (frame_neighbors A_name B_name s snap) ;;;
  let (sys, nl) := (sn : system * nlist) in
  _ <-- emit (Queried (length nl)) ;;;
  fl <-- (if exclude_bonded then
            let pre_filter := length nl in
            mol <-- lift (match s_molecules s with
                          | Some m => Ok m
                          | None => Raise (UnboundLocalError "molecules_A")
                          end) ;;;
            nl' <-- lift (drop_bonded (fst mol) (snd mol) nl) ;;;
            ret (nl', Some pre_filter, Some (length nl'))
          else ret (nl, l_pre_filter l, l_post_filter l)) ;;;
  let '(nl, pre, post) := (fl : nlist * option nat * option nat) in
  _ <-- emit (Accumulated (length nl)) ;;;
  ret {| l_rdf := RDF_compute (l_rdf l) sys nl false;
         l_pre_filter := pre; l_post_filter := post |}.

(** [for snap in trajectory[start:stop]: ...] *)
Fixpoint loop (A_name B_name : string) (exclude_bonded : bool) (s : setting)
         (frames : list frame) (l : locals) : M locals :=
  match frames with
  | [] => ret l
  | snap :: rest =>
      l' <-- process_frame A_name B_name exclude_bonded s l snap ;;;
      loop A_name B_name exclude_bonded s rest l'
  end.

(** A local variable read. *)
Definition read_local (name : string) (v : option nat) : result nat :=
  match v with
  | Some n => Ok n
  | None => Raise (UnboundLocalError name)
  end.

(** [post_filter / pre_filter] on Python integers. *)
Definition true_div (a b : nat) : result Q :=
  match b with
  | O => Raise ZeroDivisionError
  | S _ => Ok (Qmake (Z.of_nat a) (Pos.of_nat b))
  end.

(** Line 62. *)
Definition normalization (exclude_bonded : bool) (l : locals) : result Q :=
  if exclude_bonded then
    post <- read_local "post_filter" (l_post_filter l) ;;
    pre <- read_local "pre_filter" (l_pre_filter l) ;;
    true_div post pre
  else Ok 1%Q.

Definition intermolecular_rdf (trajectory : list frame) (A_name B_name : string)
           (start : Z) (stop : option Z) (r_max : option float32)
           (r_min : float32) (bins : Z) (exclude_bonded : bool) : M (RDF * Q) :=
  sr <-- setup trajectory A_name B_name r_max r_min bins exclude_bonded ;;;
  let (s, rdf) := (sr : setting * RDF) in
  l <-- loop A_name B_name exclude_bonded s (slice trajectory start stop)
             {| l_rdf := rdf; l_pre_filter := None; l_post_filter := None |} ;;;
  norm <-- lift (normalization exclude_bonded l) ;;;
  ret (l_rdf l, norm).

End WithFreud.

(** *** The accumulator as the design document words it *)

(** The pairs of a neighbour list that join two different molecules. *)
Definition intermolecular (molecules_A molecules_B : list nat) (nl : nlist) : nlist :=
  filter (fun b => negb (nth (point_index b) molecules_A O
                         =? nth (query_point_index b) molecules_B O)%nat) nl.

(** The frames folded into the histogram, read off the log. *)
Definition frames_accumulated (t : list event) : nat :=
  length (filter (fun e => match e with Accumulated _ => true | _ => false end) t).

(** Half the largest and half the smallest of the three box edges. *)
Definition half_largest_edge (b : box) : float32 :=
  mul (maximum (maximum (Lx b) (Ly b)) (Lz b)) one_half.

Definition half_smallest_edge (b : box) : float32 :=
  mul (minimum (minimum (Lx b) (Ly b)) (Lz b)) one_half.

(** The search radius in force: the one supplied or, without one, the
    float32 next to half the largest box edge on the side of zero. *)
Definition radius_in_force (snap : frame) (r_max : option float32) : float32 :=
  match r_max with
  | Some r => r
  | None => nextafter (half_largest_edge (configuration_box snap)) zero
  end.

(** *** A small collaborator to run the code on *)

(** Every query point is paired with every point (but itself when
    [exclude_ii] holds), all distances are zero, and the components are
    those of particles [2k] and [2k+1] taken as bonded. *)
Definition toy_query (s : system) (qs : list vec3) (r_max : float32) (exclude_ii : bool)
  : nlist :=
  flat_map (fun i =>
    flat_map (fun j =>
      if (exclude_ii && (i =? j)%nat)%bool then []
      else [{| query_point_index := i; point_index := j; distance := zero |}])
      (seq 0 (length (snd s))))
    (seq 0 (length qs)).

Definition toy : Oracle := {|
  query := toy_query;
  compute_distances := fun _ qs _ => map (fun _ => zero) qs;
  cluster := fun s _ => map (fun i => Nat.div i 2) (seq 0 (length (snd s)))
|}.

(** A 10 x 20 x 30 box and a frame of four particles of one type in it,
    the first two bonded. *)
Definition box_10_20_30 : box :=
  {| Lx := of_Z 10; Ly := of_Z 20; Lz := of_Z 30;
     xy := zero; xz := zero; yz := zero |}.

Definition origin : vec3 := (zero, zero, zero).

Definition four_particles : frame :=
  {| frame_particles :=
       {| N := 4; position := [origin; origin; origin; origin];
          typeid := [O; O; O; O]; types := ["A"%string] |};
     bonds_group := [(0, 1)%nat];
     configuration_box := box_10_20_30 |}.

(** A trajectory of two such frames. *)
Definition two_frames : list frame := [four_particles; four_particles].

End Accumulator.

(** ** What one frame contributes *)

Module AccumulatorTrace.

Import F32 Gsd PySeq Freud Accumulator.

(** The pairs found in a frame and the pairs folded into the histogram:
    [e] holds the system, the neighbour list of the query and the list
    handed to [rdf.compute] for the frame [snap]. *)
Definition frame_result {freud : Oracle} (A_name B_name : string) (exclude_bonded : bool)
           (s : setting) (snap : frame) (e : system * nlist * nlist) : Prop :=
  frame_neighbors A_name B_name s snap = Ok (fst (fst e), snd (fst e)) /\
  if exclude_bonded
  then exists mA mB, s_molecules s = Some (mA, mB) /\
                     snd e = intermolecular mA mB (snd (fst e))
  else snd e = snd (fst e).

(** The log of one processed frame. *)
Definition frame_log (e : system * nlist * nlist) : list event :=
  [Queried (length (snd (fst e))); Accumulated (length (snd e))].

(** What [rdf.compute] received for it. *)
Definition frame_entry (e : system * nlist * nlist) : system * nlist :=
  (fst (fst e), snd e).

(** [post_filter] never exceeds [pre_filter] once both are assigned. *)
Definition filters_ordered (l : locals) : Prop :=
  match l_post_filter l, l_pre_filter l with
  | Some a, Some b => (a <= b)%nat
  | _, _ => True
  end.

(** The sample frame with a bond to a particle that is not there. *)
Definition dangling_bond : frame :=
  {| frame_particles := frame_particles four_particles;
     bonds_group := [(0, 7)%nat];
     configuration_box := box_10_20_30 |}.

(** A frame of three particles, one short of the sample frame. *)
Definition three_particles : frame :=
  {| frame_particles :=
       {| N := 3; position := [origin; origin; origin];
          typeid := [O; O; O]; types := ["A"%string] |};
     bonds_group := [];
     configuration_box := box_10_20_30 |}.

End AccumulatorTrace.

(** ** The plain RDF of the paper code, [compute_simple_rdf] *)

Module SimpleRdf.

Import F32 Gsd PySeq Freud Accumulator.

(** What [compute_simple_rdf] asks of a [freud.density.RDF] and does not
    decide itself, left open: the pairs the histogram finds on its own when
    [compute] is given a system and no neighbour list, or the exception it
    raises instead (freud refuses a radius beyond half a box edge), and the
    two arrays read off at the end. *)
Class Histogram : Type := {
  default_neighbors : RDF -> system -> result nlist;
  bin_centers : RDF -> list float32;
  rdf_values : RDF -> list float32
}.

(** [freud.box.Box.from_box] on a list of three edge lengths: the tilt
    factors are zero. *)
Definition from_box (e : list float32) : result box :=
  match e with
  | [lx; ly; lz] => Ok {| Lx := lx; Ly := ly; Lz := lz;
                          xy := zero; xz := zero; yz := zero |}
  | _ => Raise (InvalidArgument "box")
  end.

Section WithHistogram.

Context {histogram : Histogram}.

(** [for frame in traj: rdf.compute(system=(box, frame.particles.position),
    reset=False)] *)
Fixpoint accumulate (b : box) (frames : list frame) (rdf : RDF) : M RDF :=
  match frames with
  | [] => ret rdf
  | frame :: rest =>
      let sys : system := (b, position (frame_particles frame)) in
      nl <-- lift (default_neighbors rdf sys) ;;;
      _ <-- emit (Accumulated (length nl)) ;;;
      accumulate b rest (RDF_compute rdf sys nl false)
  end.

Definition compute_simple_rdf (traj : list frame) (rmin rmax : float32) (bins : Z)
  : M (list float32 * list float32) :=
  snap <-- lift (getitem traj 0) ;;;
  b <-- lift (from_box (edges (configuration_box snap))) ;;;
  rdf <-- lift (RDF_new bins rmax rmin) ;;;
  _ <-- emit Constructed ;;;
  rdf <-- accumulate b traj rdf ;;;
  ret (bin_centers rdf, rdf_values rdf).

End WithHistogram.

(** The first frame's box with its tilt factors dropped. *)
Definition untilted (b : box) : box :=
  {| Lx := Lx b; Ly := Ly b; Lz := Lz b; xy := zero; xz := zero; yz := zero |}.

(** A histogram to run the code on: no pairs, and the accumulated frame
    count read back as one bin centre. *)
Definition toy_histogram : Histogram := {|
  default_neighbors := fun _ _ => Ok [];
  bin_centers := fun rdf => [of_Z (Z.of_nat (length (rdf_accumulated rdf)))];
  rdf_values := fun _ => [zero]
|}.

(** The sample frame in a sheared 10 x 20 x 30 box. *)
Definition sheared_frame : frame :=
  {| frame_particles := frame_particles four_particles;
     bonds_group := [];
     configuration_box :=
       {| Lx := of_Z 10; Ly := of_Z 20; Lz := of_Z 30;
          xy := one_half; xz := one_half; yz := one_half |} |}.

End SimpleRdf.

(** ** The starting lattice of the simulations ([hoomd_sim.py]) *)

Module Lattice.

Local Open Scope R_scope.
Import Np.

(** [math.ceil] *)
Definition ceil (x : R) : Z := (- Int_part (- x))%Z.

(** [n ** (1 / 3)] for a non-negative integer, read as the exact cube
    root. *)
Definition cube_root (n : nat) : R :=
  if (n =? 0)%nat then 0 else Rpower (INR n) (1 / 3).

(** [np.linspace(start, stop, num, endpoint=False)], following numpy's
    [function_base.linspace]. *)
Definition linspace_open (start stop : R) (num : nat) : ndarray :=
  let div := num in
  let delta := stop - start in
  let y := arange num in
  let y :=
    if (0 <? div)%nat then
      let step := delta / INR div in
      if Req_EM_T step 0
      then map (fun v => v / INR div * delta) y
      else map (fun v => v * step) y
    else map (fun v => v * delta) y in
  map (fun v => v + start) y.

(** [list(itertools.product(x, repeat=3))]: the last coordinate runs
    fastest. *)
Definition product3 (x : list R) : list (R * R * R) :=
  flat_map (fun a => flat_map (fun b => map (fun c => (a, b, c)) x) x) x.

(** The fields the code sets on the [gsd.hoomd.Frame]. *)
Record snapshot : Type := {
  particles_N : nat;
  particles_position : list (R * R * R);
  particles_typeid : list nat;
  configuration_box : list R;
  particles_types : list string
}.

(** [mie_fluid], lines 9-21: the initial configuration. *)
Definition mie_fluid_snapshot (m : nat) (spacing sigma : R) (name : string) : snapshot :=
  let N_particles := (4 * m ^ 3)%nat in
  let K := Z.to_nat (ceil (cube_root N_particles)) in
  let L := INR K * spacing * sigma in
  let x := linspace_open (- L / 2) (L / 2) K in
  let position := product3 x in
  {| particles_N := N_particles;
     particles_position := firstn N_particles position;
     particles_typeid := repeat O N_particles;
     configuration_box := [L; L; L; 0; 0; 0];
     particles_types := [name] |}.

(** [table_fluid], lines 84-96: the same with the spacing alone as the
    lattice constant. *)
Definition table_fluid_snapshot (m : nat) (spacing : R) (name : string) : snapshot :=
  let N_particles := (4 * m ^ 3)%nat in
  let K := Z.to_nat (ceil (cube_root N_particles)) in
  let L := INR K * spacing in
  let x := linspace_open (- L / 2) (L / 2) K in
  let position := product3 x in
  {| particles_N := N_particles;
     particles_position := firstn N_particles position;
     particles_typeid := repeat O N_particles;
     configuration_box := [L; L; L; 0; 0; 0];
     particles_types := [name] |}.

(** The number of lattice sites along one edge. *)
Definition sites_per_edge (m : nat) : nat :=
  Z.to_nat (ceil (cube_root (4 * m ^ 3))).

End Lattice.

(** * Proofs *)

Unset Implicit Arguments.

(** ** Facts about the numpy operations *)

Module NpFacts.

Local Open Scope R_scope.
Import Np.

Lemma arange_length n : length (arange n) = n.
Proof. unfold arange. now rewrite length_map, length_seq. Qed.

Lemma arange_nth n j d : (j < n)%nat -> nth j (arange n) d = INR j.
Proof.
  intros Hj. unfold arange.
  rewrite (nth_indep _ d (INR 0)) by now rewrite length_map, length_seq.
  now rewrite (map_nth INR), seq_nth.
Qed.

Lemma set_last_length y v : length (set_last y v) = length y.
Proof.
  destruct y as [|a y]; [reflexivity|].
  unfold set_last. rewrite length_app, removelast_firstn_len, length_firstn.
  simpl length. lia.
Qed.

Lemma set_last_nth y v d j :
  (j < length y)%nat ->
  nth j (set_last y v) d = if (j =? length y - 1)%nat then v else nth j y d.
Proof.
  intros Hj. destruct y as [|a y]; [simpl in Hj; lia|].
  unfold set_last. rewrite removelast_firstn_len.
  remember (a :: y) as l eqn:El.
  assert (Hlen : length (firstn (Nat.pred (length l)) l) = (length l - 1)%nat)
    by (rewrite length_firstn; lia).
  destruct (Nat.eqb_spec j (length l - 1)) as [->|Hne].
  - rewrite app_nth2 by lia. rewrite Hlen, Nat.sub_diag. reflexivity.
  - rewrite app_nth1 by lia.
    rewrite <- (firstn_skipn (Nat.pred (length l)) l) at 3.
    rewrite app_nth1 by lia. reflexivity.
Qed.

Lemma linspace_length a b n : length (linspace a b n) = n.
Proof.
  unfold linspace.
  assert (H : forall f g : R -> R, length (map f (map g (arange n))) = n)
    by (intros; now rewrite !length_map, arange_length).
  destruct (1 <? n)%nat; [rewrite set_last_length|];
    destruct (0 <? n - 1)%nat; try destruct (Req_EM_T _ _); apply H.
Qed.

(** The grid points in closed form. *)
Lemma linspace_nth a b n j :
  (2 <= n)%nat -> (j < n)%nat ->
  nth j (linspace a b n) 0 = a + INR j * ((b - a) / INR (n - 1)).
Proof.
  intros Hn Hj.
  assert (Hd : INR (n - 1) <> 0) by (apply not_0_INR; lia).
  unfold linspace.
  replace (1 <? n)%nat with true by (symmetry; apply Nat.ltb_lt; lia).
  replace (0 <? n - 1)%nat with true by (symmetry; apply Nat.ltb_lt; lia).
  set (y := map (fun v => v + a) _).
  assert (Hy : length y = n).
  { subst y. destruct (Req_EM_T _ _); now rewrite !length_map, arange_length. }
  assert (Hnth : nth j y 0 = a + INR j * ((b - a) / INR (n - 1))).
  { subst y. rewrite (nth_indep _ 0 (0 + a)).
    2:{ destruct (Req_EM_T _ _); now rewrite !length_map, arange_length. }
    rewrite (map_nth (fun v => v + a)).
    destruct (Req_EM_T _ _).
    - rewrite (nth_indep _ 0 (0 / INR (n - 1) * (b - a)))
        by now rewrite length_map, arange_length.
      rewrite (map_nth (fun v => v / INR (n - 1) * (b - a))).
      rewrite arange_nth by assumption. field. assumption.
    - rewrite (nth_indep _ 0 (0 * ((b - a) / INR (n - 1))))
        by now rewrite length_map, arange_length.
      rewrite (map_nth (fun v => v * ((b - a) / INR (n - 1)))).
      rewrite arange_nth by assumption. ring. }
  rewrite set_last_nth by lia. rewrite Hy.
  destruct (Nat.eqb_spec j (n - 1)) as [->|_]; [|exact Hnth].
  field. assumption.
Qed.

Lemma sum_app l x : sum (l ++ [x]) = sum l + x.
Proof. unfold sum. now rewrite fold_left_app. Qed.

(** The pairs [np.trapz] adds up, by index. *)
Lemma trapz_pairs (y : ndarray) :
  combine (tl y) (removelast y)
  = map (fun i => (nth (S i) y 0, nth i y 0)) (seq 0 (length y - 1)).
Proof.
  assert (Hl : length (removelast y) = (length y - 1)%nat).
  { rewrite removelast_firstn_len, length_firstn. lia. }
  assert (Ht : length (tl y) = (length y - 1)%nat).
  { destruct y; simpl; lia. }
  apply (nth_ext _ _ (0, 0) (0, 0)).
  - rewrite length_combine, length_map, length_seq. lia.
  - intros i Hi. rewrite length_combine in Hi.
    assert (Hi' : (i < length y - 1)%nat) by lia.
    rewrite combine_nth by lia.
    rewrite (nth_indep _ (0, 0) ((fun i => (nth (S i) y 0, nth i y 0)) O))
      by now rewrite length_map, length_seq.
    rewrite (map_nth (fun i => (nth (S i) y 0, nth i y 0))), seq_nth by lia.
    simpl Nat.add. f_equal.
    + destruct y; [simpl in Hi'; lia | reflexivity].
    + rewrite removelast_firstn_len.
      rewrite <- (firstn_skipn (Nat.pred (length y)) y) at 3.
      rewrite app_nth1; [reflexivity | rewrite length_firstn; lia].
Qed.

End NpFacts.

(** ** The transform *)

Module TransformFacts.

Local Open Scope R_scope.
Import Np NpFacts Transform.

(** [np.trapz] with a fixed step is the left-to-right trapezoidal rule. *)
Lemma trapz_trapezoid_rule y d :
  trapz y d = trapezoid_rule d (fun i => nth i y 0) (length y - 1).
Proof.
  unfold trapz. rewrite trapz_pairs, map_map. simpl fst; simpl snd.
  induction (length y - 1)%nat as [|n IH]; [reflexivity|].
  rewrite seq_S, map_app. cbn [map]. rewrite sum_app, IH. simpl. lra.
Qed.

Lemma trapezoid_rule_ext d f g n :
  (forall i, (i <= n)%nat -> f i = g i) ->
  trapezoid_rule d f n = trapezoid_rule d g n.
Proof.
  induction n as [|n IH]; intros H; [reflexivity|].
  simpl. rewrite IH by (intros; apply H; lia).
  rewrite (H n), (H (S n)) by lia. reflexivity.
Qed.

Lemma trapezoid_rule_scal d c f n :
  trapezoid_rule d (fun i => c * f i) n = c * trapezoid_rule d f n.
Proof. induction n as [|n IH]; simpl; [ring | rewrite IH; lra]. Qed.

(** Whether the integrand can be formed depends on the shapes only. *)
Lemma integrand_shape r g q1 q2 :
  match integrand r g q1, integrand r g q2 with
  | Ok _, Ok _ => True
  | Raise e1, Raise e2 => e1 = e2
  | _, _ => False
  end.
Proof.
  unfold integrand.
  destruct (broadcast2 Rmult r (map _ g)) as [a|e]; simpl; [|reflexivity].
  unfold broadcast2. rewrite !length_map.
  destruct (length a =? length r)%nat; [trivial|].
  destruct a as [|a0 [|a1 a]]; destruct r as [|r0 [|r1 r]]; simpl; trivial.
Qed.

(** On parallel arrays the integrand is the sampled function. *)
Lemma integrand_parallel r g qj :
  length g = length r ->
  exists y, integrand r g qj = Ok y /\ length y = length r /\
            forall i, (i < length r)%nat -> nth i y 0 = sample r g qj i.
Proof.
  intros Hlen. unfold integrand, broadcast2.
  rewrite !length_map, Hlen, Nat.eqb_refl. simpl bind.
  rewrite length_map, length_combine, length_map, Hlen, Nat.min_id, Nat.eqb_refl.
  eexists. split; [reflexivity|]. split.
  - rewrite length_map, length_combine, !length_map, length_combine, length_map. lia.
  - intros i Hi. unfold sample.
    rewrite (nth_indep _ 0 ((fun p => fst p * snd p) (0, 0))).
    2:{ rewrite length_map, length_combine, !length_map, length_combine, length_map. lia. }
    rewrite (map_nth (fun p : R * R => fst p * snd p)).
    rewrite combine_nth
      by (rewrite !length_map, length_combine, length_map; lia).
    simpl fst; simpl snd.
    rewrite (nth_indep (map _ (combine _ _)) 0 ((fun p => fst p * snd p) (0, 0)))
      by (rewrite length_map, length_combine, length_map; lia).
    rewrite (map_nth (fun p : R * R => fst p * snd p)).
    rewrite combine_nth by (rewrite length_map; lia).
    simpl fst; simpl snd.
    rewrite (nth_indep (map _ g) 0 (0 - 1)) by (rewrite length_map; lia).
    rewrite (map_nth (fun x => x - 1)).
    rewrite (nth_indep (map sin _) 0 (sin (qj * 0))) by (rewrite !length_map; lia).
    rewrite (map_nth sin), (map_nth (fun x => qj * x)). reflexivity.
Qed.

Lemma sq_entry_eq r g dr rho qj :
  sq_entry r g dr rho qj =
  match integrand r g 0 with
  | Ok _ => Ok (entry r g dr rho qj)
  | Raise e => Raise e
  end.
Proof.
  unfold sq_entry, entry, values.
  generalize (integrand_shape r g qj 0).
  destruct (integrand r g qj), (integrand r g 0); simpl;
    intros H; try contradiction; congruence.
Qed.

Lemma setitem_length A (a : list A) j v : length (setitem a j v) = length a.
Proof.
  revert j; induction a as [|h t IH]; intros [|j]; simpl; auto.
Qed.

Lemma firstn_setitem A (a : list A) j v :
  (j < length a)%nat -> firstn (S j) (setitem a j v) = firstn j a ++ [v].
Proof.
  revert j; induction a as [|h t IH]; intros j Hj; [simpl in Hj; lia|].
  destruct j as [|j]; [reflexivity|].
  simpl in Hj. change (h :: firstn (S j) (setitem t j v) = h :: (firstn j t ++ [v])).
  rewrite IH by lia. reflexivity.
Qed.

Lemma skipn_cons_nth A (l : list A) k d :
  (k < length l)%nat -> skipn k l = nth k l d :: skipn (S k) l.
Proof.
  revert k; induction l as [|h t IH]; intros k Hk; [simpl in Hk; lia|].
  destruct k as [|k]; [reflexivity|].
  simpl in Hk. simpl. apply IH. lia.
Qed.

(** The loop of [rdf2sq], from index [k] on. *)
Lemma fill_seq r g dr rho q m : forall k sq,
  (k + m = length q)%nat -> length sq = length q ->
  fill r g dr rho q (seq k m) sq =
  match m, integrand r g 0 with
  | S _, Raise e => Raise e
  | _, _ => Ok (firstn k sq ++ map (entry r g dr rho) (skipn k q))
  end.
Proof.
  induction m as [|m IH]; intros k sq Hk Hsq.
  - simpl. rewrite Nat.add_0_r in Hk. subst k.
    rewrite skipn_all, <- Hsq, firstn_all, app_nil_r. reflexivity.
  - simpl seq. simpl fill. unfold getitem.
    destruct (nth_error q k) as [qk|] eqn:Eqk.
    2:{ apply nth_error_None in Eqk. lia. }
    simpl bind. rewrite sq_entry_eq.
    destruct (integrand r g 0) as [y0|e] eqn:E0; simpl bind; [|reflexivity].
    rewrite IH by (rewrite ?setitem_length; lia).
    rewrite firstn_setitem by lia.
    rewrite (skipn_cons_nth _ q k qk) by lia.
    rewrite (nth_error_nth _ _ _ Eqk). simpl map. rewrite <- app_assoc.
    destruct m; reflexivity.
Qed.

(** [rdf2sq] in closed form: an IndexError when there is no [r[1]], the
    broadcasting error of the integrand when the shapes do not fit, and
    otherwise the grid with one value per grid point. *)
Lemma rdf2sq_eq r g Qmin Qmax rho :
  rdf2sq r g Qmin Qmax rho =
  match r with
  | r0 :: r1 :: _ =>
      match integrand r g 0 with
      | Ok _ => Ok (linspace Qmin Qmax 1000,
                    map (entry r g (r1 - r0) rho) (linspace Qmin Qmax 1000))
      | Raise e => Raise e
      end
  | _ => Raise IndexError
  end.
Proof.
  unfold rdf2sq.
  destruct r as [|r0 [|r1 r]]; try reflexivity.
  change (getitem (r0 :: r1 :: r) 1) with (Ok r1).
  change (getitem (r0 :: r1 :: r) 0) with (Ok r0).
  cbv beta iota delta [bind].
  rewrite fill_seq.
  - rewrite linspace_length at 1.
    destruct (integrand (r0 :: r1 :: r) g 0); reflexivity.
  - reflexivity.
  - unfold zeros. now rewrite repeat_length.
Qed.

End TransformFacts.

(** ** Properties of the transform *)

Module TransformSpec.

Local Open Scope R_scope.
Import Np NpFacts Transform TransformFacts.

Lemma INR_999 : INR (1000 - 1) = 999.
Proof. rewrite INR_IZR_INZ. f_equal. Qed.

(** The grid of [rdf2sq] by index. *)
Lemma grid_nth Qmin Qmax j :
  (j < 1000)%nat ->
  nth j (linspace Qmin Qmax 1000) 0 = Qmin + INR j * ((Qmax - Qmin) / 999).
Proof.
  intros Hj. rewrite linspace_nth by lia. now rewrite INR_999.
Qed.

Lemma grid_nth_error Qmin Qmax j :
  (j < 1000)%nat ->
  nth_error (linspace Qmin Qmax 1000) j
  = Some (Qmin + INR j * ((Qmax - Qmin) / 999)).
Proof.
  intros Hj. rewrite <- grid_nth by assumption.
  apply nth_error_nth'. now rewrite linspace_length.
Qed.

(** On parallel arrays of at least two radii the stored value is the
    design document's [S(q)]. *)
Lemma entry_parallel r g rho qj :
  (2 <= length r)%nat -> length g = length r ->
  entry r g (nth 1 r 0 - nth 0 r 0) rho qj = S_of_q r g rho qj.
Proof.
  intros Hr Hg. unfold entry, S_of_q, quadrature, values, div.
  destruct (integrand_parallel r g qj Hg) as (y & Hy & Hl & Hn).
  rewrite Hy, trapz_trapezoid_rule, Hl.
  rewrite (trapezoid_rule_ext _ _ (sample r g qj)) by (intros; apply Hn; lia).
  destruct (Req_EM_T qj 0) as [|Hq]; [reflexivity|].
  simpl. f_equal. field. exact Hq.
Qed.

(** A flat g(r) = 1 has no structure: S(q) = 1 wherever it is defined. *)
Lemma S_of_q_ideal_gas r rho q :
  q <> 0 -> S_of_q r (repeat 1 (length r)) rho q = Real 1.
Proof.
  intros Hq. unfold S_of_q, div. destruct (Req_EM_T q 0); [contradiction|].
  f_equal. unfold quadrature.
  rewrite (trapezoid_rule_ext _ _ (fun i => 0 * 0)).
  - rewrite trapezoid_rule_scal. ring.
  - intros i _. unfold sample.
    destruct (Nat.lt_ge_cases i (length r)) as [Hi|Hi].
    + rewrite nth_repeat_lt by exact Hi. ring.
    + rewrite (nth_overflow r) by exact Hi. ring.
Qed.

(** A call on two radii and a flat g(r), used to exercise the theorems. *)
Lemma rdf2sq_sample_run Qmin Qmax rho :
  rdf2sq [1; 2] [1; 1] Qmin Qmax rho
  = Ok (linspace Qmin Qmax 1000,
        map (entry [1; 2] [1; 1] (2 - 1) rho) (linspace Qmin Qmax 1000)).
Proof. rewrite rdf2sq_eq. reflexivity. Qed.

(** C1. For radii of length at least 2 and a parallel g(r), [rdf2sq]
    returns the momentum grid and, at every index j, the value
    1 + 4 pi rho (1/q_j) T, where T is the left-to-right trapezoidal
    rule of r (g(r) - 1) sin(q_j r) over the radii with the fixed step
    radii[1] - radii[0].  (Nothing about the grid being uniform is
    needed: the step is taken from the first two radii whatever the rest
    is.) *)
Theorem rdf2sq_trapezoid_formula r g Qmin Qmax rho :
  (2 <= length r)%nat -> length g = length r ->
  exists q sq,
    rdf2sq r g Qmin Qmax rho = Ok (q, sq) /\
    q = linspace Qmin Qmax 1000 /\
    forall j, (j < 1000)%nat ->
      nth_error sq j = Some (S_of_q r g rho (nth j q 0)).
Proof.
  intros Hr Hg. rewrite rdf2sq_eq.
  destruct (integrand_parallel r g 0 Hg) as (y & Hy & _).
  destruct r as [|r0 [|r1 r]]; try (simpl in Hr; lia).
  rewrite Hy. do 2 eexists. split; [reflexivity|]. split; [reflexivity|].
  intros j Hj. rewrite nth_error_map.
  rewrite (nth_error_nth' _ 0) by now rewrite linspace_length.
  simpl option_map. f_equal.
  apply (entry_parallel (r0 :: r1 :: r) g rho _ Hr Hg).
Qed.

Lemma rdf2sq_trapezoid_formula_witness :
  exists q sq,
    rdf2sq [1; 2] [1; 1] 1 2 1 = Ok (q, sq) /\
    q = linspace 1 2 1000 /\
    forall j, (j < 1000)%nat ->
      nth_error sq j = Some (S_of_q [1; 2] [1; 1] 1 (nth j q 0)).
Proof.
  apply (rdf2sq_trapezoid_formula [1; 2] [1; 1] 1 2 1); simpl; lia.
Defined.

(** Without rounding: when Qmin < Qmax, the grid a call returns has
    exactly 1000 points, is strictly increasing and evenly spaced, starts
    at Qmin and ends at Qmax; the structure-factor sequence pairs up with
    it, entry by entry in the same order. *)
Lemma rdf2sq_grid r g Qmin Qmax rho q sq :
  Qmin < Qmax ->
  rdf2sq r g Qmin Qmax rho = Ok (q, sq) ->
  length q = 1000%nat /\
  (forall i j, (i < j < 1000)%nat -> nth i q 0 < nth j q 0) /\
  (forall j, (S j < 1000)%nat -> nth (S j) q 0 - nth j q 0 = (Qmax - Qmin) / 999) /\
  nth 0 q 0 = Qmin /\
  nth 999 q 0 = Qmax /\
  length sq = length q /\
  exists dr, Forall2 (fun qj s => sq_entry r g dr rho qj = Ok s) q sq.
Proof.
  intros HQ Hrun. rewrite rdf2sq_eq in Hrun.
  destruct r as [|r0 [|r1 r]]; try discriminate.
  destruct (integrand (r0 :: r1 :: r) g 0) as [y0|e] eqn:E0; [|discriminate].
  injection Hrun as <- <-.
  assert (Hstep : 0 < (Qmax - Qmin) / 999) by (apply Rdiv_lt_0_compat; lra).
  repeat split.
  - apply linspace_length.
  - intros i j [Hij Hj]. rewrite !grid_nth by lia.
    apply lt_INR in Hij. nra.
  - intros j Hj. rewrite !grid_nth by lia. rewrite S_INR. ring.
  - rewrite grid_nth by lia. simpl INR. ring.
  - rewrite grid_nth by lia.
    replace (INR 999) with 999 by (rewrite INR_IZR_INZ; f_equal).
    field.
  - apply length_map.
  - exists (r1 - r0).
    induction (linspace Qmin Qmax 1000) as [|qj l IH]; constructor; [|exact IH].
    rewrite sq_entry_eq, E0. reflexivity.
Qed.

(** Without rounding: for a fixed RDF input, replacing the density rho
    by k * rho leaves the grid unchanged and multiplies the deviation
    S(q) - 1 by k at every grid point (where the value is undefined for
    rho it is undefined for k * rho as well). *)
Lemma rdf2sq_density_linear r g Qmin Qmax rho k q sq :
  rdf2sq r g Qmin Qmax rho = Ok (q, sq) ->
  exists sq',
    rdf2sq r g Qmin Qmax (k * rho) = Ok (q, sq') /\
    map deviation sq' = map (fun s => scale k (deviation s)) sq.
Proof.
  intros Hrun. rewrite rdf2sq_eq in Hrun |- *.
  destruct r as [|r0 [|r1 r]]; try discriminate.
  destruct (integrand (r0 :: r1 :: r) g 0) as [y0|e]; [|discriminate].
  injection Hrun as <- <-.
  eexists. split; [reflexivity|].
  rewrite !map_map. apply map_ext. intros qj.
  unfold entry, div. destruct (Req_EM_T qj 0) as [|Hq]; [reflexivity|].
  simpl. f_equal. field. exact Hq.
Qed.

(** C6. With fewer than two radii [rdf2sq] raises: the step
    [r[1] - r[0]] cannot be formed, the index error is an InvalidInput
    failure, and nothing is returned. *)
Theorem rdf2sq_short_radii r g Qmin Qmax rho :
  (length r < 2)%nat ->
  exists e, rdf2sq r g Qmin Qmax rho = Raise e /\
            e = IndexError /\ classify e = InvalidInput.
Proof.
  intros Hr. exists IndexError. rewrite rdf2sq_eq.
  destruct r as [|r0 [|r1 r]]; try (simpl in Hr; lia); auto.
Qed.

Lemma rdf2sq_short_radii_witness :
  exists e, rdf2sq [1] [1] 1 2 1 = Raise e /\
            e = IndexError /\ classify e = InvalidInput.
Proof.
  apply (rdf2sq_short_radii [1] [1] 1 2 1). simpl. lia.
Defined.

(** C7. The divisors of the transform are the grid points.  When
    0 < Qmin < Qmax none of them is zero, so no value comes out of a
    division by zero; when Qmin = 0 the first grid point is zero and the
    first value is the non-finite result of dividing by it. *)
Theorem rdf2sq_divisors r g Qmin Qmax rho q sq :
  rdf2sq r g Qmin Qmax rho = Ok (q, sq) ->
  (0 < Qmin -> Qmin < Qmax ->
     Forall (fun qj => qj <> 0) q /\ Forall (fun s => s <> NonFinite) sq) /\
  (Qmin = 0 ->
     nth_error q 0 = Some 0 /\ nth_error sq 0 = Some NonFinite).
Proof.
  intros Hrun. rewrite rdf2sq_eq in Hrun.
  destruct r as [|r0 [|r1 r]]; try discriminate.
  destruct (integrand (r0 :: r1 :: r) g 0) as [y0|e]; [|discriminate].
  injection Hrun as <- <-.
  split.
  - intros H0 HQ.
    assert (Hq : Forall (fun qj => qj <> 0) (linspace Qmin Qmax 1000)).
    { apply Forall_forall. intros qj Hin.
      destruct (In_nth _ _ 0 Hin) as (j & Hj & <-).
      rewrite linspace_length in Hj. rewrite grid_nth by assumption.
      assert (0 <= INR j) by apply pos_INR.
      assert (0 < (Qmax - Qmin) / 999) by (apply Rdiv_lt_0_compat; lra).
      nra. }
    split; [exact Hq|].
    apply Forall_map. revert Hq. apply Forall_impl. intros qj Hqj.
    unfold entry, div. destruct (Req_EM_T qj 0); [contradiction | discriminate].
  - intros ->.
    assert (Hq0 : nth_error (linspace 0 Qmax 1000) 0 = Some 0).
    { rewrite grid_nth_error by lia. simpl INR. f_equal. ring. }
    split; [exact Hq0|].
    rewrite nth_error_map, Hq0. simpl option_map. f_equal.
    unfold entry, div. destruct (Req_EM_T 0 0); [reflexivity | contradiction].
Qed.

Lemma rdf2sq_divisors_witness :
  Forall (fun qj => qj <> 0) (linspace 1 2 1000) /\
  nth_error (linspace 0 2 1000) 0 = Some 0.
Proof.
  split.
  - apply (rdf2sq_divisors [1; 2] [1; 1] 1 2 1 _ _ (rdf2sq_sample_run 1 2 1)); lra.
  - apply (rdf2sq_divisors [1; 2] [1; 1] 0 2 1 _ _ (rdf2sq_sample_run 0 2 1)).
    reflexivity.
Defined.

End TransformSpec.

(** ** The transform in binary64 *)

Module Transform64Facts.

Import F64 Np64 Transform64 TransformFacts.

Lemma arange_length64 n : length (arange n) = n.
Proof. unfold arange. now rewrite length_map, length_seq. Qed.

Lemma set_last_length64 y v : length (set_last y v) = length y.
Proof.
  destruct y as [|a y]; [reflexivity|].
  unfold set_last. rewrite length_app, removelast_firstn_len, length_firstn.
  simpl length. lia.
Qed.

Lemma set_last_last64 y v d :
  y <> [] -> nth (length y - 1) (set_last y v) d = v.
Proof.
  intros Hy. destruct y as [|a y]; [contradiction|].
  unfold set_last. rewrite removelast_firstn_len.
  rewrite app_nth2; rewrite length_firstn.
  - replace (_ - _)%nat with 0%nat by lia. reflexivity.
  - lia.
Qed.

Lemma set_last_first64 (a b : float64) y v d :
  nth 0 (set_last (a :: b :: y) v) d = a.
Proof. reflexivity. Qed.

Lemma linspace_length64 a b n : length (linspace a b n) = n.
Proof.
  unfold linspace.
  assert (H : forall f g : float64 -> float64,
             length (map f (map g (arange n))) = n)
    by (intros; now rewrite !length_map, arange_length64).
  destruct (1 <? n)%nat; [rewrite set_last_length64|];
    destruct (0 <? n - 1)%nat; try destruct (eqb _ _); apply H.
Qed.

(** The last grid point is [stop] itself: it is assigned, not computed. *)
Lemma linspace_last64 a b n d :
  (2 <= n)%nat -> nth (n - 1) (linspace a b n) d = b.
Proof.
  intros Hn. unfold linspace.
  replace (1 <? n)%nat with true by (symmetry; apply Nat.ltb_lt; lia).
  set (y := map (fun v => add v a) _).
  assert (Hy : length y = n).
  { subst y. destruct (0 <? n - 1)%nat; try destruct (eqb _ _);
      now rewrite !length_map, arange_length64. }
  rewrite <- Hy at 1. apply set_last_last64.
  intros E. rewrite E in Hy. simpl in Hy. lia.
Qed.

Lemma eqb_refl_finite s m e :
  eqb (S754_finite s m e) (S754_finite s m e) = true.
Proof.
  unfold eqb, SFeqb, SFcompare.
  destruct s; rewrite Z.compare_refl, Pos.compare_cont_refl; reflexivity.
Qed.

(** A zero added to a finite value gives that value back, up to the
    sign of a zero. *)
Lemma add_zero_l s x :
  is_finite x = true -> eqb (add (S754_zero s) x) x = true.
Proof.
  destruct x as [s'| | |s' m e]; try discriminate; intros _.
  - destruct s, s'; reflexivity.
  - apply eqb_refl_finite.
Qed.

Lemma mul_zero_l s x :
  is_finite x = true -> exists s', mul (S754_zero s) x = S754_zero s'.
Proof.
  destruct x as [s'| | |s' m e]; try discriminate; intros _; eexists; reflexivity.
Qed.

Lemma div_finite_inv x c :
  is_finite (F64.div x c) = true -> is_finite c = true -> is_finite x = true.
Proof.
  destruct x as [s| s| |s m e], c as [s'| s'| |s' m' e']; try discriminate; reflexivity.
Qed.

(** The first grid point is [start] whenever the step is finite. *)
Lemma linspace_first64 a b :
  ltb a b = true ->
  is_finite (linspace_step a b 1000) = true ->
  eqb (nth 0 (linspace a b 1000) nan) a = true.
Proof.
  intros Hab Hstep.
  assert (Ha : is_finite a = true).
  { destruct a as [s|[|]| |s m e]; try reflexivity.
    all: destruct b as [sb|[|]| |sb mb eb];
      vm_compute in Hab, Hstep; discriminate. }
  unfold linspace_step in Hstep. change (1000 - 1)%nat with 999%nat in Hstep.
  unfold linspace. change (1000 - 1)%nat with 999%nat.
  change (0 <? 999)%nat with true. change (1 <? 1000)%nat with true. cbv zeta.
  unfold arange. change (seq 0 1000) with (0%nat :: 1%nat :: seq 2 998).
  set (delta := sub b a) in *. set (step := F64.div delta (of_nat 999)) in *.
  assert (Hd : is_finite delta = true)
    by (apply (div_finite_inv _ _ Hstep); reflexivity).
  destruct (eqb step zero); cbn [map]; rewrite set_last_first64;
    change (of_nat 0) with (S754_zero false).
  - change (F64.div (S754_zero false) (of_nat 999)) with (S754_zero false).
    destruct (mul_zero_l false delta Hd) as (s' & ->). now apply add_zero_l.
  - destruct (mul_zero_l false step Hstep) as (s' & ->). now apply add_zero_l.
Qed.

Section WithNumpy.

Context {numpy : Numpy}.

(** Whether the integrand can be formed depends on the shapes only. *)
Lemma integrand_shape64 r g q1 q2 :
  match integrand r g q1, integrand r g q2 with
  | Ok _, Ok _ => True
  | Raise e1, Raise e2 => e1 = e2
  | _, _ => False
  end.
Proof.
  unfold integrand.
  destruct (broadcast2 mul r (map _ g)) as [a|e]; simpl; [|reflexivity].
  unfold broadcast2. rewrite !length_map.
  destruct (length a =? length r)%nat; [trivial|].
  destruct a as [|a0 [|a1 a]]; destruct r as [|r0 [|r1 r]]; simpl; trivial.
Qed.

Lemma sq_entry_eq64 r g dr rho qj :
  sq_entry r g dr rho qj =
  match integrand r g zero with
  | Ok _ => Ok (entry r g dr rho qj)
  | Raise e => Raise e
  end.
Proof.
  unfold sq_entry, entry, values.
  generalize (integrand_shape64 r g qj zero).
  destruct (integrand r g qj), (integrand r g zero); simpl;
    intros H; try contradiction; congruence.
Qed.

(** The loop of [rdf2sq], from index [k] on. *)
Lemma fill_seq64 r g dr rho q m : forall k sq,
  (k + m = length q)%nat -> length sq = length q ->
  fill r g dr rho q (seq k m) sq =
  match m, integrand r g zero with
  | S _, Raise e => Raise e
  | _, _ => Ok (firstn k sq ++ map (entry r g dr rho) (skipn k q))
  end.
Proof.
  induction m as [|m IH]; intros k sq Hk Hsq.
  - simpl. rewrite Nat.add_0_r in Hk. subst k.
    rewrite skipn_all, <- Hsq, firstn_all, app_nil_r. reflexivity.
  - simpl seq. simpl fill. unfold getitem.
    destruct (nth_error q k) as [qk|] eqn:Eqk.
    2:{ apply nth_error_None in Eqk. lia. }
    simpl bind. rewrite sq_entry_eq64.
    destruct (integrand r g zero) as [y0|e] eqn:E0; simpl bind; [|reflexivity].
    rewrite IH by (rewrite ?setitem_length; lia).
    rewrite firstn_setitem by lia.
    rewrite (skipn_cons_nth _ q k qk) by lia.
    rewrite (nth_error_nth _ _ _ Eqk). simpl map. rewrite <- app_assoc.
    destruct m; reflexivity.
Qed.

(** [rdf2sq] in closed form. *)
Lemma rdf2sq_eq64 r g Qmin Qmax rho :
  rdf2sq r g Qmin Qmax rho =
  match r with
  | r0 :: r1 :: _ =>
      match integrand r g zero with
      | Ok _ => Ok (linspace Qmin Qmax 1000,
                    map (entry r g (sub r1 r0) rho) (linspace Qmin Qmax 1000))
      | Raise e => Raise e
      end
  | _ => Raise IndexError
  end.
Proof.
  unfold rdf2sq.
  destruct r as [|r0 [|r1 r]]; try reflexivity.
  change (getitem (r0 :: r1 :: r) 1) with (Ok r1).
  change (getitem (r0 :: r1 :: r) 0) with (Ok r0).
  cbv beta iota delta [bind].
  rewrite fill_seq64.
  - rewrite linspace_length64 at 1.
    destruct (integrand (r0 :: r1 :: r) g zero); reflexivity.
  - reflexivity.
  - unfold zeros. now rewrite repeat_length.
Qed.

End WithNumpy.

End Transform64Facts.

(** ** Properties of the transform under rounding *)

Module Transform64Spec.

Import F64 Np64 Transform64 Transform64Facts.

(** The entries of a returned pair, one per grid point. *)
Lemma rdf2sq_entries64 {numpy : Numpy} r g Qmin Qmax rho q sq :
  Transform64.rdf2sq r g Qmin Qmax rho = Ok (q, sq) ->
  q = linspace Qmin Qmax 1000 /\
  length sq = length q /\
  exists dr, Forall2 (fun qj s => Transform64.sq_entry r g dr rho qj = Ok s) q sq.
Proof.
  intros Hrun. rewrite rdf2sq_eq64 in Hrun.
  destruct r as [|r0 [|r1 r]]; try discriminate.
  destruct (Transform64.integrand (r0 :: r1 :: r) g zero) as [y0|e] eqn:E0;
    [|discriminate].
  injection Hrun as <- <-.
  split; [reflexivity|]. split; [apply length_map|].
  exists (sub r1 r0).
  induction (linspace Qmin Qmax 1000) as [|qj l IH]; constructor; [|exact IH].
  rewrite sq_entry_eq64, E0. reflexivity.
Qed.

(** A run on the two sample radii over the range from 1 to the float64
    next to 1. *)
Lemma rdf2sq_sample_run64 rho :
  exists q sq,
    @Transform64.rdf2sq sample_numpy radii_0_1 g_2_2 one one_next rho = Ok (q, sq).
Proof. rewrite rdf2sq_eq64. do 2 eexists. reflexivity. Qed.

(** C4, as amended.  In binary64, when Qmin < Qmax the grid a call
    returns has exactly 1000 points, its first point equals Qmin as soon
    as the step (Qmax - Qmin) / 999 is finite, its last point is Qmax, and
    the structure-factor sequence pairs up with it entry by entry.  That
    the grid is strictly increasing and evenly spaced holds for the grid
    formula Qmin + j (Qmax - Qmin) / 999 evaluated without rounding. *)
Theorem rdf2sq_grid_rounded :
  (forall (numpy : Numpy) r g Qmin Qmax rho q sq,
     ltb Qmin Qmax = true ->
     Transform64.rdf2sq r g Qmin Qmax rho = Ok (q, sq) ->
     length q = 1000%nat /\
     (is_finite (linspace_step Qmin Qmax 1000) = true ->
      eqb (nth 0 q nan) Qmin = true) /\
     nth 999 q nan = Qmax /\
     length sq = length q /\
     exists dr, Forall2 (fun qj s => Transform64.sq_entry r g dr rho qj = Ok s) q sq) /\
  (forall r g Qmin Qmax rho q sq,
     (Qmin < Qmax)%R ->
     Transform.rdf2sq r g Qmin Qmax rho = Ok (q, sq) ->
     q = map (fun j => (Qmin + INR j * ((Qmax - Qmin) / 999))%R) (seq 0 1000) /\
     (forall i j, (i < j < 1000)%nat -> (nth i q 0 < nth j q 0)%R) /\
     (forall j, (S j < 1000)%nat ->
        (nth (S j) q 0 - nth j q 0 = (Qmax - Qmin) / 999)%R)).
Proof.
  split.
  - intros numpy r g Qmin Qmax rho q sq HQ Hrun.
    apply rdf2sq_entries64 in Hrun as (-> & Hlen & Hent).
    split; [apply linspace_length64|].
    split; [intros Hstep; now apply linspace_first64|].
    split; [apply (linspace_last64 Qmin Qmax 1000); lia|].
    split; assumption.
  - intros r g Qmin Qmax rho q sq HQ Hrun.
    destruct (TransformSpec.rdf2sq_grid r g Qmin Qmax rho q sq HQ Hrun)
      as (Hlen & Hinc & Hstep & _).
    split; [|split; assumption].
    apply (nth_ext _ _ 0%R 0%R).
    + now rewrite length_map, length_seq.
    + intros j Hj. rewrite Hlen in Hj.
      set (f := fun j => (Qmin + INR j * ((Qmax - Qmin) / 999))%R).
      rewrite (nth_indep (map f _) 0%R (f O)) by now rewrite length_map, length_seq.
      rewrite (map_nth f), seq_nth by assumption. simpl Nat.add. subst f.
      rewrite TransformFacts.rdf2sq_eq in Hrun.
      destruct r as [|r0 [|r1 r]]; try discriminate.
      destruct (Transform.integrand (r0 :: r1 :: r) g 0); [|discriminate].
      injection Hrun as <- _. now apply TransformSpec.grid_nth.
Qed.

(** C4 as the design document has it fails in binary64.  From 1 to the
    float64 next to 1 the call returns a grid whose first 500 points are
    all 1: it is not strictly increasing, and its spacing is 0 at the
    start and 2^-52 in the middle. *)
Lemma rdf2sq_grid_repeats :
  ltb one one_next = true /\
  exists q sq,
    @Transform64.rdf2sq sample_numpy radii_0_1 g_2_2 one one_next one = Ok (q, sq) /\
    nth 0 q nan = one /\
    nth 1 q nan = one /\
    ltb (nth 0 q nan) (nth 1 q nan) = false /\
    sub (nth 1 q nan) (nth 0 q nan) = zero /\
    sub (nth 500 q nan) (nth 499 q nan) = S754_finite false 4503599627370496 (-104).
Proof.
  split; [vm_compute; reflexivity|].
  do 2 eexists. split; [vm_compute; reflexivity|].
  repeat split; vm_compute; reflexivity.
Qed.

Lemma rdf2sq_grid_rounded_witness :
  (exists q sq,
     @Transform64.rdf2sq sample_numpy radii_0_1 g_2_2 one one_next one = Ok (q, sq) /\
     length q = 1000%nat /\
     eqb (nth 0 q nan) one = true /\
     nth 999 q nan = one_next /\
     length sq = length q) /\
  (nth 0 (Np.linspace 1 2 1000) 0 < nth 1 (Np.linspace 1 2 1000) 0)%R.
Proof.
  destruct rdf2sq_grid_rounded as [H64 HR].
  split.
  - destruct (rdf2sq_sample_run64 one) as (q & sq & E).
    assert (Hlt : ltb one one_next = true) by (vm_compute; reflexivity).
    destruct (H64 sample_numpy _ _ _ _ _ _ _ Hlt E) as (Hl & H0 & H999 & Hsq & _).
    exists q, sq. split; [exact E|]. split; [exact Hl|].
    split; [apply H0; vm_compute; reflexivity|]. split; assumption.
  - assert (H12 : (1 < 2)%R) by lra.
    destruct (HR [1; 2]%R [2; 3]%R 1%R 2%R 1%R _ _ H12
                (eq_trans (TransformFacts.rdf2sq_eq _ _ _ _ _) eq_refl))
      as (_ & Hinc & _).
    apply Hinc. lia.
Defined.

(** C5, as amended.  Replacing the density rho by k * rho leaves the
    grid as it is, and a call that returned returns again.  In the
    formula evaluated without rounding the deviation S(q) - 1 is
    multiplied by exactly k at every grid point (and where the value is
    undefined for rho it is undefined for k * rho as well). *)
Theorem rdf2sq_density_linear_exact :
  (forall (numpy : Numpy) r g Qmin Qmax rho k q sq,
     Transform64.rdf2sq r g Qmin Qmax rho = Ok (q, sq) ->
     exists sq',
       Transform64.rdf2sq r g Qmin Qmax (mul k rho) = Ok (q, sq') /\
       length sq' = length sq) /\
  (forall r g Qmin Qmax rho k q sq,
     Transform.rdf2sq r g Qmin Qmax rho = Ok (q, sq) ->
     exists sq',
       Transform.rdf2sq r g Qmin Qmax (k * rho) = Ok (q, sq') /\
       map Transform.deviation sq'
       = map (fun s => Transform.scale k (Transform.deviation s)) sq).
Proof.
  split.
  - intros numpy r g Qmin Qmax rho k q sq Hrun.
    rewrite rdf2sq_eq64 in Hrun |- *.
    destruct r as [|r0 [|r1 r]]; try discriminate.
    destruct (Transform64.integrand (r0 :: r1 :: r) g zero) as [y0|e]; [|discriminate].
    injection Hrun as <- <-.
    eexists. split; [reflexivity|]. now rewrite !length_map.
  - intros r g Qmin Qmax rho k q sq.
    apply TransformSpec.rdf2sq_density_linear.
Qed.

(** C5 as the design document has it fails in binary64.  With the
    density 1e-17 the term added to 1 is below half an ulp of 1, every
    returned value is exactly 1 and every deviation is 0; with 1e6 times
    that density the deviations are positive.  At no grid point is the
    second deviation 1e6 times the first. *)
Lemma rdf2sq_density_scaling_rounds :
  exists q sq sq',
    @Transform64.rdf2sq sample_numpy radii_0_1 g_2_2 one one_next rho_1e_17
    = Ok (q, sq) /\
    @Transform64.rdf2sq sample_numpy radii_0_1 g_2_2 one one_next (mul k_1e6 rho_1e_17)
    = Ok (q, sq') /\
    length sq = 1000%nat /\ length sq' = 1000%nat /\
    deviation (nth 0 sq nan) = zero /\
    mul k_1e6 (deviation (nth 0 sq nan)) = zero /\
    ltb zero (deviation (nth 0 sq' nan)) = true /\
    forallb (fun p => negb (eqb (deviation (snd p)) (mul k_1e6 (deviation (fst p)))))
            (combine sq sq') = true.
Proof.
  do 3 eexists. split; [vm_compute; reflexivity|].
  split; [vm_compute; reflexivity|].
  repeat split; vm_compute; reflexivity.
Qed.

(** The same holds when the sine is off by one or two units in the last
    place, in either direction. *)
Lemma rdf2sq_density_scaling_rounds_nearby :
  forallb
    (fun d =>
       match @Transform64.rdf2sq (nearby_numpy d) radii_0_1 g_2_2 one one_next rho_1e_17,
             @Transform64.rdf2sq (nearby_numpy d) radii_0_1 g_2_2 one one_next
                                 (mul k_1e6 rho_1e_17)
       with
       | Ok (_, sq), Ok (_, sq') =>
           forallb (fun p => eqb (deviation (fst p)) zero
                             && ltb zero (deviation (snd p)))%bool
                   (combine sq sq')
           && (length sq =? 1000)%nat && (length sq' =? 1000)%nat
       | _, _ => false
       end)%bool
    [-2; -1; 0; 1; 2]%Z = true.
Proof. vm_compute. reflexivity. Qed.

Lemma rdf2sq_density_linear_exact_witness :
  (exists q sq sq',
     @Transform64.rdf2sq sample_numpy radii_0_1 g_2_2 one one_next rho_1e_17
     = Ok (q, sq) /\
     @Transform64.rdf2sq sample_numpy radii_0_1 g_2_2 one one_next (mul k_1e6 rho_1e_17)
     = Ok (q, sq') /\
     length sq' = length sq) /\
  (exists sq',
     Transform.rdf2sq [1; 2]%R [2; 3]%R 1 2 (3 * 1)
     = Ok (Np.linspace 1 2 1000, sq') /\
     map Transform.deviation sq'
     = map (fun s => Transform.scale 3 (Transform.deviation s))
           (map (Transform.entry [1; 2]%R [2; 3]%R (2 - 1) 1) (Np.linspace 1 2 1000))).
Proof.
  destruct rdf2sq_density_linear_exact as [H64 HR].
  split.
  - destruct (rdf2sq_sample_run64 rho_1e_17) as (q & sq & E).
    destruct (H64 sample_numpy _ _ _ _ _ k_1e6 _ _ E) as (sq' & E' & Hl).
    exists q, sq, sq'. auto.
  - apply (HR [1; 2]%R [2; 3]%R 1%R 2%R 1%R 3%R).
    rewrite TransformFacts.rdf2sq_eq. reflexivity.
Defined.

End Transform64Spec.

(** ** binary32 neighbours *)

Module F32Facts.

Import F32.
Local Open Scope Z_scope.

Lemma pred_pos_lt m e : ltb (pred_pos m e) (S754_finite false m e) = true.
Proof.
  unfold pred_pos, ltb, SFltb.
  destruct (Pos.eqb_spec m 1) as [|Hm]; [reflexivity|].
  destruct (_ && _)%bool; simpl.
  - replace (e - 1 ?= e) with Lt; [reflexivity|].
    symmetry. apply Z.compare_lt_iff. lia.
  - rewrite Z.compare_refl.
    change (Pos.compare_cont Eq (Pos.pred m) m) with (Pos.pred m ?= m)%positive.
    replace (Pos.pred m ?= m)%positive with Lt; [reflexivity|].
    symmetry. apply Pos.compare_lt_iff. lia.
Qed.

(** A step from a positive value towards zero lands strictly below it. *)
Lemma nextafter_zero_lt h :
  ltb zero h = true -> ltb (nextafter h zero) h = true.
Proof.
  destruct h as [s|[|]| |[|] m e]; try discriminate.
  - reflexivity.
  - intros _. apply pred_pos_lt.
Qed.

(** The mantissa of a canonical finite value has at most 24 bits, and
    fewer only at the smallest exponent. *)
Lemma digits2_size m : digits2_pos m = Pos.size m.
Proof. induction m; simpl; congruence. Qed.

Lemma digits_le_bound m k :
  Z.pos (digits2_pos m) <= Z.pos k -> (Z.pos m < 2 ^ Z.pos k).
Proof.
  intros H. rewrite digits2_size in H.
  pose proof (Pos.size_gt m) as Hgt.
  apply Pos2Z.pos_lt_pos in Hgt. rewrite Pos2Z.inj_pow in Hgt.
  eapply Z.lt_le_trans; [exact Hgt|].
  apply Z.pow_le_mono_r; lia.
Qed.

Lemma bound_digits_le m k :
  Z.pos m < 2 ^ Z.pos k -> Z.pos (digits2_pos m) <= Z.pos k.
Proof.
  intros H. rewrite digits2_size.
  pose proof (Pos.size_le m) as Hle.
  apply Pos2Z.pos_le_pos in Hle. rewrite Pos2Z.inj_pow in Hle.
  change (Z.pos m~0) with (2 * Z.pos m) in Hle.
  assert (Hlt : 2 ^ Z.pos (Pos.size m) < 2 ^ (Z.pos k + 1)).
  { rewrite Z.pow_add_r by lia. change (2 ^ 1) with 2. lia. }
  apply Z.pow_lt_mono_r_iff in Hlt; lia.
Qed.

Lemma canonical_bits m e :
  canonical_mantissa prec emax m e = true ->
  Z.pos m < 2 ^ 24 /\ emin prec emax <= e /\
  (Z.pos m < 2 ^ 23 -> e = emin prec emax).
Proof.
  unfold canonical_mantissa, fexp, emin, prec, emax.
  intros H. apply Z.eqb_eq in H.
  split; [|split].
  - apply (digits_le_bound m 24). lia.
  - lia.
  - intros Hm. apply (bound_digits_le m 23) in Hm. lia.
Qed.

(** Nothing representable lies between a positive value and its
    neighbour towards zero. *)
Lemma pred_pos_nonneg z m e :
  match z with
  | S754_zero _ | S754_infinity true | S754_finite true _ _ => True
  | _ => False
  end ->
  leb z (pred_pos m e) = true.
Proof.
  intros Hz. unfold pred_pos.
  destruct (m =? 1)%positive; [|destruct (_ && _)%bool];
    destruct z as [sz|[|]| |[|] mz ez]; try contradiction; reflexivity.
Qed.

Lemma leb_finite_pos mz ez m e :
  ez < e \/ (ez = e /\ Z.pos mz <= Z.pos m) ->
  leb (S754_finite false mz ez) (S754_finite false m e) = true.
Proof.
  intros H. unfold leb, SFleb, SFcompare.
  change (Pos.compare_cont Eq mz m) with (mz ?= m)%positive.
  destruct (Z.compare_spec ez e); try reflexivity; [|lia].
  destruct (Pos.compare_spec mz m) as [| |Hgt]; try reflexivity.
  apply Pos2Z.pos_lt_pos in Hgt. lia.
Qed.

Lemma ltb_finite_pos mz ez m e :
  ltb (S754_finite false mz ez) (S754_finite false m e) = true ->
  ez < e \/ (ez = e /\ Z.pos mz < Z.pos m).
Proof.
  unfold ltb, SFltb, SFcompare.
  change (Pos.compare_cont Eq mz m) with (mz ?= m)%positive.
  destruct (Z.compare_spec ez e); try discriminate; [right|left; assumption].
  split; [assumption|].
  destruct (Pos.compare_spec mz m) as [|Hlt|]; try discriminate.
  apply Pos2Z.pos_lt_pos. exact Hlt.
Qed.

(** A valid finite binary32 value: at most 24 bits of mantissa, the
    exponent within range, and fewer than 24 bits only when subnormal. *)
Lemma valid_finite_bits s m e :
  valid_binary prec emax (S754_finite s m e) = true ->
  Z.pos m < 16777216 /\ -149 <= e <= 104 /\ (Z.pos m < 8388608 -> e = -149).
Proof.
  unfold valid_binary, bounded. intros V. apply andb_prop in V as [Vc Vb].
  apply canonical_bits in Vc as (Hm & He & Hsub). apply Z.leb_le in Vb.
  change (emin prec emax) with (-149) in *.
  change (emax - prec) with 104 in Vb.
  change (2 ^ 24) with 16777216 in Hm. change (2 ^ 23) with 8388608 in Hsub.
  auto.
Qed.

Lemma nextafter_zero_adjacent h z :
  valid_binary prec emax h = true -> valid_binary prec emax z = true ->
  ltb zero h = true -> ltb z h = true -> leb z (nextafter h zero) = true.
Proof.
  intros Vh Vz Hpos Hz.
  destruct h as [s|[|]| |[|] m e]; try discriminate.
  - change (nextafter (S754_infinity false) zero) with (S754_finite false 16777215 104).
    destruct z as [sz|[|]| |[|] mz ez]; try discriminate; try reflexivity.
    apply valid_finite_bits in Vz as (Hm & He & _).
    apply leb_finite_pos. lia.
  - change (nextafter (S754_finite false m e) zero) with (pred_pos m e).
    destruct z as [sz|[|]| |[|] mz ez]; try discriminate;
      try (apply pred_pos_nonneg; exact I).
    apply valid_finite_bits in Vh as (Hm & He & Hsub).
    apply valid_finite_bits in Vz as (Hmz & Hez & Hsubz).
    apply ltb_finite_pos in Hz.
    unfold pred_pos.
    destruct (Pos.eqb_spec m 1) as [->|Hm1]; [lia|].
    change (2 ^ 24 - 1)%positive with 16777215%positive.
    change (emin prec emax) with (-149).
    destruct (Pos.eqb_spec m (2 ^ 23)) as [->|_]; simpl andb.
    + change (Z.pos (2 ^ 23)) with 8388608 in *.
      change (Pos.pred (2 ^ 23)) with 8388607%positive.
      destruct (Z.ltb_spec (-149) e) as [Hgt|Hle]; apply leb_finite_pos; lia.
    + apply leb_finite_pos. lia.
Qed.

(** [leb] is reflexive, total and transitive away from NaN. *)
Lemma leb_refl a : is_nan a = false -> leb a a = true.
Proof.
  destruct a as [s|[|]| |[|] m e]; try discriminate; try reflexivity; intros _;
    unfold leb, SFleb, SFcompare; rewrite Z.compare_refl;
    change (Pos.compare_cont Eq m m) with (m ?= m)%positive;
    rewrite Pos.compare_refl; reflexivity.
Qed.

Lemma leb_total a b :
  is_nan a = false -> is_nan b = false -> leb b a = false -> leb a b = true.
Proof.
  destruct a as [sa|[|]| |[|] ma ea]; try discriminate;
  destruct b as [sb|[|]| |[|] mb eb]; try discriminate; intros _ _;
    unfold leb, SFleb, SFcompare; try reflexivity; try discriminate;
    change (Pos.compare_cont Eq ma mb) with (ma ?= mb)%positive;
    change (Pos.compare_cont Eq mb ma) with (mb ?= ma)%positive;
    rewrite (Z.compare_antisym ea eb), (Pos.compare_antisym ma mb);
    destruct (ea ?= eb); simpl; try reflexivity; try discriminate;
    destruct (ma ?= mb)%positive; simpl; try reflexivity; discriminate.
Qed.

Lemma leb_trans a b c : leb a b = true -> leb b c = true -> leb a c = true.
Proof.
  destruct a as [sa|[|]| |[|] ma ea]; try discriminate;
  destruct b as [sb|[|]| |[|] mb eb]; try discriminate;
  destruct c as [sc|[|]| |[|] mc ec]; try discriminate;
    unfold leb, SFleb, SFcompare; try reflexivity; try discriminate;
    change (Pos.compare_cont Eq ma mb) with (ma ?= mb)%positive;
    change (Pos.compare_cont Eq mb mc) with (mb ?= mc)%positive;
    change (Pos.compare_cont Eq ma mc) with (ma ?= mc)%positive;
    destruct (Z.compare_spec ea eb); try discriminate;
    destruct (Z.compare_spec eb ec); try discriminate;
    destruct (Z.compare_spec ea ec); try reflexivity; try lia;
    destruct (Pos.compare_spec ma mb); try discriminate;
    destruct (Pos.compare_spec mb mc); try discriminate;
    destruct (Pos.compare_spec ma mc); try reflexivity; simpl; intros; try lia; try discriminate.
Qed.

Lemma maximum_upper_bound a b :
  is_nan a = false -> is_nan b = false ->
  leb a (maximum a b) = true /\ leb b (maximum a b) = true /\
  is_nan (maximum a b) = false /\ (maximum a b = a \/ maximum a b = b).
Proof.
  intros Ha Hb. unfold maximum. rewrite Ha. simpl orb.
  destruct (leb b a) eqn:E.
  - repeat split; auto using leb_refl.
  - repeat split; auto using leb_refl, leb_total.
Qed.

(** [np.max] of three edges without a NaN is one of them and bounds all. *)
Lemma largest_of_three a b c :
  is_nan a = false -> is_nan b = false -> is_nan c = false ->
  let m := maximum (maximum a b) c in
  In m [a; b; c] /\ Forall (fun x => leb x m = true) [a; b; c].
Proof.
  intros Ha Hb Hc.
  destruct (maximum_upper_bound a b Ha Hb) as (Hab1 & Hab2 & Hn & Hab).
  destruct (maximum_upper_bound (maximum a b) c Hn Hc) as (H1 & H2 & _ & H).
  cbv zeta. split.
  - destruct H as [->| ->]; [destruct Hab as [->| ->]|]; simpl; auto.
  - repeat constructor; eauto using leb_trans.
Qed.

(** The hand-written neighbours agree with the Standard Library's
    [SFpred] and [SFsucc] where those were evaluated. *)
Example step_down_15 : step_down (of_Z 15) = SFpred prec emax (of_Z 15).
Proof. reflexivity. Qed.

Example step_down_16 : step_down (of_Z 16) = SFpred prec emax (of_Z 16).
Proof. reflexivity. Qed.

Example step_down_smallest :
  step_down (S754_finite false 1 (-149)) = SFpred prec emax (S754_finite false 1 (-149)).
Proof. reflexivity. Qed.

Example step_down_smallest_normal :
  step_down (S754_finite false (2 ^ 23) (-149))
  = SFpred prec emax (S754_finite false (2 ^ 23) (-149)).
Proof. reflexivity. Qed.

Example step_down_infinity : step_down (S754_infinity false) = SFpred prec emax (S754_infinity false).
Proof. reflexivity. Qed.

Example step_up_15 : step_up (of_Z 15) = SFsucc prec emax (of_Z 15).
Proof. reflexivity. Qed.

Example step_up_max : step_up max_float = SFsucc prec emax max_float.
Proof. reflexivity. Qed.

End F32Facts.

(** ** The accumulator *)

Module AccumulatorFacts.

Import F32 Gsd PySeq Freud Accumulator.

Lemma mbind_ok A B (m : M A) (k : A -> M B) t t' b :
  mbind m k t = (t', Ok b) ->
  exists a t1, m t = (t1, Ok a) /\ k a t1 = (t', Ok b).
Proof.
  unfold mbind. destruct (m t) as [t1 [a|e]]; [eauto | discriminate].
Qed.

Lemma mbind_lift A B (r : result A) (k : A -> M B) t :
  mbind (lift r) k t = match r with
                       | Ok a => k a t
                       | Raise e => (t, Raise e)
                       end.
Proof. unfold mbind, lift. destruct r; reflexivity. Qed.

Lemma mbind_emit B (ev : event) (k : unit -> M B) t :
  mbind (emit ev) k t = k tt (t ++ [ev]).
Proof. reflexivity. Qed.

Lemma lift_ok A (r : result A) t t' a : lift r t = (t', Ok a) -> r = Ok a /\ t' = t.
Proof. unfold lift. intros [= <- ->]. auto. Qed.

(** *** Lookups and index arrays *)

Lemma index_absent l x : ~ In x l -> index l x = Raise (NotInList x).
Proof.
  induction l as [|y l IH]; intros Hx; [reflexivity|].
  simpl. destruct (String.eqb_spec y x) as [->|_].
  - exfalso. apply Hx. now left.
  - rewrite IH; [reflexivity|]. intros H. apply Hx. now right.
Qed.

Lemma index_present l x : In x l -> exists i, index l x = Ok i.
Proof.
  induction l as [|y l IH]; intros Hx; [contradiction|].
  simpl. destruct (String.eqb_spec y x) as [->|Hne]; [eauto|].
  destruct Hx as [|Hx]; [contradiction|].
  destruct (IH Hx) as (i & ->). simpl. eauto.
Qed.

Lemma take_ok A (a : list A) d idx xs :
  take a idx = Ok xs -> xs = map (fun i => nth i a d) idx.
Proof.
  revert xs. induction idx as [|i idx IH]; intros xs H; simpl in H.
  - now injection H as <-.
  - unfold getitem in H. destruct (nth_error a i) as [x|] eqn:Ex; [|discriminate].
    simpl in H. destruct (take a idx) as [ys|]; [|discriminate].
    simpl in H. injection H as <-. simpl.
    rewrite (nth_error_nth _ _ d Ex), (IH ys eq_refl). reflexivity.
Qed.

Lemma filter_by_mask A (h : A -> bool) (l : list A) :
  map fst (filter snd (combine l (map h l))) = filter h l.
Proof.
  induction l as [|x l IH]; [reflexivity|].
  simpl. destruct (h x); simpl; now rewrite IH.
Qed.

(** The mask filter of the code keeps the pairs that join two different
    molecules. *)
Lemma drop_bonded_intermolecular mA mB nl nl' :
  drop_bonded mA mB nl = Ok nl' -> nl' = intermolecular mA mB nl.
Proof.
  unfold drop_bonded. intros H.
  destruct (take mA (map point_index nl)) as [ia|] eqn:Ea; [|discriminate].
  destruct (take mB (map query_point_index nl)) as [ib|] eqn:Eb; [|discriminate].
  simpl in H. injection H as <-.
  apply (take_ok _ _ O) in Ea. apply (take_ok _ _ O) in Eb. subst ia ib.
  unfold filter_nlist, intermolecular.
  rewrite <- (filter_by_mask _ (fun b => negb (nth (point_index b) mA O
                                            =? nth (query_point_index b) mB O)%nat) nl).
  do 3 f_equal. rewrite !map_map.
  induction nl as [|b nl IH]; [reflexivity|]. simpl. now rewrite IH.
Qed.

(** *** The constructor and the default radius *)

Lemma RDF_new_r_max bins r r_min rdf :
  RDF_new bins r r_min = Ok rdf -> rdf_r_max rdf = r /\ rdf_accumulated rdf = [].
Proof.
  unfold RDF_new.
  destruct (_ || _)%bool; [discriminate|].
  destruct (bins <? 1)%Z; [discriminate|].
  destruct (ltb r_min zero); [discriminate|].
  destruct (leb r r_min); [discriminate|].
  intros [= <-]. auto.
Qed.

Lemma RDF_new_rejects bins r r_min :
  (bins < 1)%Z \/ ltb r_min zero = true \/ leb r r_min = true ->
  exists e, RDF_new bins r r_min = Raise e /\ classify e = InvalidInput.
Proof.
  intros H. unfold RDF_new.
  destruct (_ || _)%bool; [eauto|].
  destruct (Z.ltb_spec bins 1); [eauto|].
  destruct (ltb r_min zero); [eauto|].
  destruct (leb r r_min); [eauto|].
  destruct H as [|[|]]; [lia | discriminate | discriminate].
Qed.

Lemma default_r_max_eq snap :
  default_r_max snap = Ok (nextafter (half_largest_edge (configuration_box snap)) zero).
Proof. reflexivity. Qed.

Section WithFreud.

Context {freud : Oracle}.

(** *** Before the loop *)

Lemma setup_empty A_name B_name r_max r_min bins excl t :
  setup [] A_name B_name r_max r_min bins excl t = (t, Raise IndexError).
Proof. reflexivity. Qed.

Lemma radius_in_force_eq snap r_max :
  match r_max with
  | None => default_r_max snap
  | Some r => Ok r
  end = Ok (radius_in_force snap r_max).
Proof. destruct r_max; reflexivity. Qed.

(** [setup] on a trajectory with a first frame, up to the lookups. *)
Lemma setup_first snap rest A_name B_name r_max r_min bins excl t :
  setup (snap :: rest) A_name B_name r_max r_min bins excl t =
  match RDF_new bins (radius_in_force snap r_max) r_min with
  | Raise e => (t, Raise e)
  | Ok rdf =>
      match index (types (frame_particles snap)) A_name with
      | Raise e => (t ++ [Constructed], Raise e)
      | Ok iA =>
          match index (types (frame_particles snap)) B_name with
          | Raise e => (t ++ [Constructed], Raise e)
          | Ok iB =>
              let type_A := map (Nat.eqb iA) (typeid (frame_particles snap)) in
              let type_B := map (Nat.eqb iB) (typeid (frame_particles snap)) in
              mbind
                (if excl then
                   mbind (snap_molecule_indices snap) (fun molecules =>
                   mbind (lift (bool_index molecules type_A)) (fun molecules_A =>
                   mbind (lift (bool_index molecules type_B)) (fun molecules_B =>
                   ret (Some (molecules_A, molecules_B)))))
                 else ret None)
                (fun molecules =>
                   ret ({| s_r_max := radius_in_force snap r_max;
                           s_type_A := type_A; s_type_B := type_B;
                           s_molecules := molecules |}, rdf))
                (t ++ [Constructed])
          end
      end
  end.
Proof.
  unfold setup. rewrite mbind_lift. cbn [getitem nth_error].
  rewrite mbind_lift, radius_in_force_eq, mbind_lift.
  destruct (RDF_new bins (radius_in_force snap r_max) r_min) as [rdf|e]; [|reflexivity].
  rewrite mbind_emit, mbind_lift.
  destruct (index (types (frame_particles snap)) A_name) as [iA|e]; [|reflexivity].
  rewrite mbind_lift.
  destruct (index (types (frame_particles snap)) B_name) as [iB|e]; reflexivity.
Qed.

Lemma setup_rejected snap rest A_name B_name r_max r_min bins excl t e :
  RDF_new bins (radius_in_force snap r_max) r_min = Raise e ->
  setup (snap :: rest) A_name B_name r_max r_min bins excl t = (t, Raise e).
Proof. intros H. now rewrite setup_first, H. Qed.

Lemma setup_lookup_fails snap rest A_name B_name r_max r_min bins excl t rdf :
  RDF_new bins (radius_in_force snap r_max) r_min = Ok rdf ->
  ~ In A_name (types (frame_particles snap)) \/
  ~ In B_name (types (frame_particles snap)) ->
  exists x, (x = A_name \/ x = B_name) /\
    setup (snap :: rest) A_name B_name r_max r_min bins excl t
    = (t ++ [Constructed], Raise (NotInList x)).
Proof.
  intros Hnew Habs. rewrite setup_first, Hnew.
  destruct (in_dec string_dec A_name (types (frame_particles snap))) as [HA|HA].
  - destruct Habs as [|HB]; [contradiction|].
    destruct (index_present _ _ HA) as (iA & ->).
    exists B_name. split; [now right|].
    now rewrite (index_absent _ _ HB).
  - exists A_name. split; [now left|].
    now rewrite (index_absent _ _ HA).
Qed.

Lemma setup_inv trajectory A_name B_name r_max r_min bins excl t t' s rdf :
  setup trajectory A_name B_name r_max r_min bins excl t = (t', Ok (s, rdf)) ->
  exists snap rest,
    trajectory = snap :: rest /\
    s_r_max s = radius_in_force snap r_max /\
    RDF_new bins (radius_in_force snap r_max) r_min = Ok rdf /\
    In A_name (types (frame_particles snap)) /\
    In B_name (types (frame_particles snap)).
Proof.
  destruct trajectory as [|snap rest]; [discriminate|].
  intros H. exists snap, rest. split; [reflexivity|].
  rewrite setup_first in H.
  destruct (RDF_new bins (radius_in_force snap r_max) r_min) as [rdf0|e]; [|discriminate].
  destruct (index _ A_name) as [iA|e] eqn:HA; [|discriminate].
  destruct (index _ B_name) as [iB|e] eqn:HB; [|discriminate].
  cbv zeta in H. apply mbind_ok in H as (mol & t1 & _ & H).
  unfold ret in H. injection H as _ <- <-.
  repeat split; try reflexivity.
  - destruct (in_dec string_dec A_name (types (frame_particles snap))) as [|HA']; [assumption|].
    rewrite (index_absent _ _ HA') in HA. discriminate.
  - destruct (in_dec string_dec B_name (types (frame_particles snap))) as [|HB']; [assumption|].
    rewrite (index_absent _ _ HB') in HB. discriminate.
Qed.

(** *** The loop *)

Lemma loop_app A_name B_name excl s xs ys l t :
  loop A_name B_name excl s (xs ++ ys) l t
  = mbind (loop A_name B_name excl s xs l)
          (fun l' => loop A_name B_name excl s ys l') t.
Proof.
  revert l t. induction xs as [|x xs IH]; intros l t; [reflexivity|].
  simpl. unfold mbind.
  destruct (process_frame A_name B_name excl s l x t) as [t1 [l1|e]]; [|reflexivity].
  rewrite IH. reflexivity.
Qed.

(** The log only grows, one query and one accumulation per frame. *)
Lemma process_frame_ok A_name B_name excl s l snap t t' l' :
  process_frame A_name B_name excl s l snap t = (t', Ok l') ->
  exists sys nl,
    frame_neighbors A_name B_name s snap = Ok (sys, nl) /\
    if excl then
      exists mA mB nl',
        s_molecules s = Some (mA, mB) /\
        drop_bonded mA mB nl = Ok nl' /\
        l_pre_filter l' = Some (length nl) /\
        l_post_filter l' = Some (length nl') /\
        l_rdf l' = RDF_compute (l_rdf l) sys nl' false /\
        t' = t ++ [Queried (length nl); Accumulated (length nl')]
    else
      l_pre_filter l' = l_pre_filter l /\
      l_post_filter l' = l_post_filter l /\
      l_rdf l' = RDF_compute (l_rdf l) sys nl false /\
      t' = t ++ [Queried (length nl); Accumulated (length nl)].
Proof.
  unfold process_frame. intros H.
  apply mbind_ok in H as ([sys nl] & t1 & H1 & H). apply lift_ok in H1 as [H1 ->].
  exists sys, nl. split; [exact H1|].
  rewrite mbind_emit in H.
  destruct excl.
  - apply mbind_ok in H as ([[nl' pre] post] & t1 & H2 & H).
    apply mbind_ok in H2 as ([mA mB] & t2 & Hm & H2). apply lift_ok in Hm as [Hm ->].
    apply mbind_ok in H2 as (nl2 & t2 & Hd & H2). apply lift_ok in Hd as [Hd ->].
    unfold ret in H2. injection H2 as <- <- <- <-.
    unfold mbind, emit, ret in H. injection H as <- <-.
    exists mA, mB, nl2.
    destruct (s_molecules s) as [[mA' mB']|]; [|discriminate].
    injection Hm as -> ->. simpl.
    rewrite <- app_assoc. auto 10.
  - unfold mbind, emit, ret in H. injection H as <- <-. simpl.
    rewrite <- app_assoc. auto.
Qed.

End WithFreud.

End AccumulatorFacts.

(** ** Properties of the accumulator *)

Module AccumulatorSpec.

Import F32 F32Facts Gsd PySeq Freud Accumulator AccumulatorFacts.

(** The first lines of the log never count as accumulated frames. *)
Lemma frames_accumulated_constructed t :
  frames_accumulated (t ++ [Constructed]) = frames_accumulated t.
Proof.
  unfold frames_accumulated. rewrite filter_app, length_app. simpl. lia.
Qed.

Section WithFreud.

Context {freud : Oracle}.

(** C2, as amended.  When no [r_max] is supplied, the search radius
    the call works with (the one handed to the histogram and to every
    neighbour query) is the float32 next to half the LARGEST box edge
    of the first frame on the side of zero.  When that half is
    positive the radius is strictly below it, and no float32 lies in
    between. *)
Theorem default_radius_below_half_largest_edge
        trajectory A_name B_name r_min bins excl t t' s rdf :
  setup trajectory A_name B_name None r_min bins excl t = (t', Ok (s, rdf)) ->
  exists snap rest,
    trajectory = snap :: rest /\
    let h := half_largest_edge (configuration_box snap) in
    s_r_max s = nextafter h zero /\
    rdf_r_max rdf = s_r_max s /\
    (ltb zero h = true -> ltb (s_r_max s) h = true) /\
    (ltb zero h = true -> valid_binary prec emax h = true ->
     forall z, valid_binary prec emax z = true ->
               ltb z h = true -> leb z (s_r_max s) = true).
Proof.
  intros H. apply setup_inv in H as (snap & rest & -> & Hr & Hnew & _).
  exists snap, rest. split; [reflexivity|].
  apply RDF_new_r_max in Hnew as [Hnew _].
  cbv zeta. rewrite Hr, Hnew. unfold radius_in_force.
  repeat split.
  - apply nextafter_zero_lt.
  - intros Hpos Hv z Hvz Hz. now apply nextafter_zero_adjacent.
Qed.

(** C3.  Once the call is through its setup and has processed the
    frames [frames ++ [last]] of the range, its outcome is fixed by the
    last frame alone.  Without exclusion it returns the fraction 1.
    With exclusion, for [nl] the neighbour list of the last frame, it
    returns (pairs of [nl] joining different molecules) / (pairs of
    [nl]); when the last frame has no pair at all the division fails
    and nothing is returned. *)
Theorem survival_fraction_last_frame
        trajectory A_name B_name start stop r_max r_min bins excl
        t t1 t2 s rdf0 frames last l :
  setup trajectory A_name B_name r_max r_min bins excl t = (t1, Ok (s, rdf0)) ->
  slice trajectory start stop = frames ++ [last] ->
  loop A_name B_name excl s (frames ++ [last])
       {| l_rdf := rdf0; l_pre_filter := None; l_post_filter := None |} t1
  = (t2, Ok l) ->
  exists sys nl,
    frame_neighbors A_name B_name s last = Ok (sys, nl) /\
    (excl = false ->
       intermolecular_rdf trajectory A_name B_name start stop r_max r_min bins excl t
       = (t2, Ok (l_rdf l, 1%Q))) /\
    (excl = true ->
       exists mA mB,
         s_molecules s = Some (mA, mB) /\
         intermolecular_rdf trajectory A_name B_name start stop r_max r_min bins excl t
         = (t2, match length nl with
                | O => Raise ZeroDivisionError
                | S _ => Ok (l_rdf l,
                             Qmake (Z.of_nat (length (intermolecular mA mB nl)))
                                   (Pos.of_nat (length nl)))
                end)).
Proof.
  intros Hsetup Hslice Hloop.
  assert (Hrun : forall r,
             normalization excl l = r ->
             intermolecular_rdf trajectory A_name B_name start stop r_max r_min bins excl t
             = (t2, match r with
                    | Ok n => Ok (l_rdf l, n)
                    | Raise e => Raise e
                    end)).
  { intros r <-. unfold intermolecular_rdf, mbind at 1. rewrite Hsetup, Hslice.
    unfold mbind at 1. rewrite Hloop. rewrite mbind_lift.
    destruct (normalization excl l); reflexivity. }
  rewrite loop_app in Hloop.
  apply mbind_ok in Hloop as (l1 & t1' & _ & Hlast).
  simpl in Hlast. apply mbind_ok in Hlast as (l' & t2' & Hlast & Hret).
  unfold ret in Hret. injection Hret as <- <-.
  apply process_frame_ok in Hlast as (sys & nl & Hnb & Hl).
  exists sys, nl. split; [exact Hnb|]. split; intros ->.
  - apply (Hrun (Ok 1%Q)). reflexivity.
  - destruct Hl as (mA & mB & nl' & Hmol & Hdrop & Hpre & Hpost & _).
    exists mA, mB. split; [exact Hmol|].
    apply drop_bonded_intermolecular in Hdrop. subst nl'.
    rewrite (Hrun _ eq_refl). unfold normalization. rewrite Hpre, Hpost. simpl.
    destruct (length nl); reflexivity.
Qed.

(** C8, as amended.  When the first frame does not declare [A_name]
    (or [B_name]) among its particle types the call fails, and no frame
    has been accumulated by then.  The histogram is constructed before
    the names are resolved: when its constructor accepts [bins], [r_min]
    and the radius, the failure is the lookup error for an absent name;
    when it refuses them, the failure is the constructor's own error and
    the names are never looked at. *)
Theorem unknown_species_lookup_error
        snap rest A_name B_name start stop r_max r_min bins excl t :
  ~ In A_name (types (frame_particles snap)) \/
  ~ In B_name (types (frame_particles snap)) ->
  exists e t',
    intermolecular_rdf (snap :: rest) A_name B_name start stop r_max r_min bins excl t
    = (t', Raise e) /\
    frames_accumulated t' = frames_accumulated t /\
    match RDF_new bins (radius_in_force snap r_max) r_min with
    | Ok _ => (e = NotInList A_name \/ e = NotInList B_name) /\ classify e = Lookup
    | Raise e0 => e = e0 /\ classify e = InvalidInput /\ t' = t
    end.
Proof.
  intros Habs.
  destruct (RDF_new bins (radius_in_force snap r_max) r_min) as [rdf|e0] eqn:Hnew.
  - destruct (setup_lookup_fails snap rest A_name B_name r_max r_min bins excl t rdf
                Hnew Habs) as (x & Hx & Hs).
    exists (NotInList x), (t ++ [Constructed]). split; [|split].
    + unfold intermolecular_rdf, mbind. now rewrite Hs.
    + apply frames_accumulated_constructed.
    + split; [|reflexivity]. destruct Hx as [->| ->]; auto.
  - exists e0, t. split; [|split].
    + unfold intermolecular_rdf, mbind.
      now rewrite (setup_rejected snap rest A_name B_name r_max r_min bins excl t e0 Hnew).
    + reflexivity.
    + split; [reflexivity|]. split; [|reflexivity].
      revert Hnew. unfold RDF_new.
      destruct (_ || _)%bool; [now intros [= <-]|].
      destruct (bins <? 1)%Z; [now intros [= <-]|].
      destruct (ltb r_min zero); [now intros [= <-]|].
      destruct (leb (radius_in_force snap r_max) r_min); [now intros [= <-] | discriminate].
Qed.

(** C9.  A call on an empty trajectory, with fewer than one bin, with
    a negative [r_min], or with [r_min] not below the radius in force
    fails with an InvalidInput error; the log is left as it was, so
    nothing was constructed or accumulated, and nothing is returned. *)
Theorem invalid_arguments_rejected
        trajectory A_name B_name start stop r_max r_min bins excl t :
  trajectory = [] \/
  (bins < 1)%Z \/
  ltb r_min zero = true \/
  (exists snap rest, trajectory = snap :: rest /\
                     leb (radius_in_force snap r_max) r_min = true) ->
  exists e,
    intermolecular_rdf trajectory A_name B_name start stop r_max r_min bins excl t
    = (t, Raise e) /\
    classify e = InvalidInput.
Proof.
  intros H. destruct trajectory as [|snap rest].
  - exists IndexError. split; reflexivity.
  - assert (Hrej : (bins < 1)%Z \/ ltb r_min zero = true \/
                   leb (radius_in_force snap r_max) r_min = true).
    { destruct H as [H|[H|[H|(snap' & rest' & Heq & H)]]]; auto.
      - discriminate.
      - injection Heq as <- <-. auto. }
    destruct (RDF_new_rejects bins (radius_in_force snap r_max) r_min Hrej)
      as (e & He & Hc).
    exists e. split; [|exact Hc].
    unfold intermolecular_rdf, mbind.
    now rewrite (setup_rejected snap rest A_name B_name r_max r_min bins excl t e He).
Qed.

(** C10.  With exclusion on and a frame range that selects no frame
    the call returns nothing: it fails, and when the setup goes through
    the failure is the read of [post_filter], which no frame has
    assigned. *)
Theorem empty_range_fails
        trajectory A_name B_name start stop r_max r_min bins t :
  slice trajectory start stop = [] ->
  (exists e t',
     intermolecular_rdf trajectory A_name B_name start stop r_max r_min bins true t
     = (t', Raise e) /\
     forall t1 s rdf,
       setup trajectory A_name B_name r_max r_min bins true t = (t1, Ok (s, rdf)) ->
       e = UnboundLocalError "post_filter" /\ t' = t1) /\
  (forall t' rdf n,
     intermolecular_rdf trajectory A_name B_name start stop r_max r_min bins true t
     <> (t', Ok (rdf, n))).
Proof.
  intros Hslice.
  assert (Hrun : exists e t',
             intermolecular_rdf trajectory A_name B_name start stop r_max r_min bins true t
             = (t', Raise e) /\
             forall t1 s rdf,
               setup trajectory A_name B_name r_max r_min bins true t = (t1, Ok (s, rdf)) ->
               e = UnboundLocalError "post_filter" /\ t' = t1).
  { unfold intermolecular_rdf, mbind at 1. rewrite Hslice.
    destruct (setup trajectory A_name B_name r_max r_min bins true t)
      as [t1 [[s rdf]|e]].
    - exists (UnboundLocalError "post_filter"), t1. split; [reflexivity|].
      intros t1' s' rdf' [= <- _ _]. auto.
    - exists e, t1. split; [reflexivity|]. intros; discriminate. }
  split; [exact Hrun|].
  destruct Hrun as (e & t' & -> & _). intros; discriminate.
Qed.

End WithFreud.

(** The claim behind C2 as the design document has it, half the
    SMALLEST box edge, fails on a 10 x 20 x 30 box: the radius is the
    float32 below 15, which is neither the float32 below 5 nor below 5 at
    all. *)
Lemma default_radius_not_below_half_smallest_edge :
  exists t' s rdf,
    @setup toy [four_particles] "A" "A" None zero 1000 false [] = (t', Ok (s, rdf)) /\
    half_smallest_edge (configuration_box four_particles) = of_Z 5 /\
    s_r_max s = S754_finite false 15728639 (-20) /\
    s_r_max s <> nextafter (half_smallest_edge (configuration_box four_particles)) zero /\
    ltb (s_r_max s) (half_smallest_edge (configuration_box four_particles)) = false.
Proof.
  do 3 eexists.
  split; [vm_compute; reflexivity|].
  split; [vm_compute; reflexivity|].
  split; [vm_compute; reflexivity|].
  split; [vm_compute; discriminate | vm_compute; reflexivity].
Qed.

Lemma default_radius_below_half_largest_edge_witness :
  ltb (nextafter (half_largest_edge box_10_20_30) zero)
      (half_largest_edge box_10_20_30) = true.
Proof.
  eassert (E : @setup toy [four_particles] "A" "A" None zero 1000 false []
               = (_, Ok (_, _))) by (vm_compute; reflexivity).
  destruct (@default_radius_below_half_largest_edge toy _ _ _ _ _ _ _ _ _ _ E)
    as (snap & rest & Heq & Hr & _ & Hlt & _).
  injection Heq as <- _. cbv zeta in Hr, Hlt.
  rewrite Hr in Hlt. apply Hlt. vm_compute. reflexivity.
Defined.

Lemma survival_fraction_last_frame_witness :
  exists t2 rdf,
    @intermolecular_rdf toy two_frames "A" "A" 0 None None zero 1000 true []
    = (t2, Ok (rdf, Qmake 8 12)).
Proof.
  eassert (E1 : @setup toy two_frames "A" "A" None zero 1000 true []
                = (_, Ok (_, _))) by (vm_compute; reflexivity).
  match type of E1 with
  | _ = (?t1, Ok (?s, ?r)) =>
      eassert (E2 : @loop toy "A" "A" true s ([four_particles] ++ [four_particles])
                      {| l_rdf := r; l_pre_filter := None; l_post_filter := None |} t1
                    = (_, Ok _)) by (vm_compute; reflexivity)
  end.
  destruct (@survival_fraction_last_frame toy _ _ _ 0%Z None _ _ _ _ _ _ _ _ _
              [four_particles] four_particles _ E1 eq_refl E2)
    as (sys & nl & Hnb & _ & Hex).
  destruct (Hex eq_refl) as (mA & mB & Hmol & Hrun).
  vm_compute in Hnb. injection Hnb as <- <-.
  vm_compute in Hmol. injection Hmol as <- <-.
  do 2 eexists. rewrite Hrun. vm_compute. reflexivity.
Defined.

(** C8 as the design document has it fails when the constructor
    refuses its arguments: with the unknown name "B" and zero bins the
    call fails with the constructor's error, which is an InvalidInput and
    not a Lookup error. *)
Lemma unknown_species_constructor_first :
  ~ In "B"%string (types (frame_particles four_particles)) /\
  @intermolecular_rdf toy two_frames "A" "B" 0 None None zero 0 true []
  = ([], Raise (InvalidArgument "bins")) /\
  classify (InvalidArgument "bins") = InvalidInput /\
  classify (InvalidArgument "bins") <> Lookup.
Proof.
  split; [simpl; intros [H|[]]; discriminate H|].
  split; [vm_compute; reflexivity|].
  split; [reflexivity | discriminate].
Qed.

Lemma unknown_species_lookup_error_witness :
  exists e t',
    @intermolecular_rdf toy two_frames "A" "B" 0 None None zero 1000 true []
    = (t', Raise e) /\
    frames_accumulated t' = frames_accumulated [] /\
    (e = NotInList "A" \/ e = NotInList "B") /\ classify e = Lookup.
Proof.
  assert (Habs : ~ In "A"%string (types (frame_particles four_particles)) \/
                 ~ In "B"%string (types (frame_particles four_particles))).
  { right. simpl. intros [H|[]]. discriminate H. }
  destruct (@unknown_species_lookup_error toy four_particles [four_particles]
              "A" "B" 0%Z None None zero 1000%Z true [] Habs)
    as (e & t' & Hrun & Hacc & Hm).
  exists e, t'. split; [exact Hrun|]. split; [exact Hacc|].
  exact Hm.
Defined.

Lemma invalid_arguments_rejected_witness :
  exists e,
    @intermolecular_rdf toy two_frames "A" "A" 0 None None zero 0 true []
    = ([], Raise e) /\
    classify e = InvalidInput.
Proof.
  apply (@invalid_arguments_rejected toy two_frames "A" "A" 0%Z None None zero 0%Z true []).
  right; left. lia.
Defined.

Lemma empty_range_fails_witness :
  exists e t',
    @intermolecular_rdf toy two_frames "A" "A" 2 None None zero 1000 true []
    = (t', Raise e).
Proof.
  destruct (@empty_range_fails toy two_frames "A" "A" 2%Z None None zero 1000%Z []
              eq_refl) as [(e & t' & Hrun & _) _].
  exists e, t'. exact Hrun.
Defined.

End AccumulatorSpec.

(** ** More about the transform *)

Module TransformMore.

Local Open Scope R_scope.
Import Np NpFacts Transform TransformFacts TransformSpec.

Lemma map_const_repeat A B (c : B) (l : list A) :
  map (fun _ => c) l = repeat c (length l).
Proof. induction l as [|x l IH]; simpl; congruence. Qed.

Lemma combine_repeat_r (f : R -> R -> R) (l : list R) v :
  map (fun p => f (fst p) (snd p)) (combine l (repeat v (length l)))
  = map (fun x => f x v) l.
Proof. induction l as [|x l IH]; simpl; congruence. Qed.

(** X1. A structureless g(r) = 1 on at least two radii transforms to
    S(q) = 1 at every grid point other than zero, whatever the radii, the
    range and the density. *)
Theorem rdf2sq_ideal_gas r Qmin Qmax rho :
  (2 <= length r)%nat ->
  exists q sq,
    rdf2sq r (repeat 1 (length r)) Qmin Qmax rho = Ok (q, sq) /\
    Forall2 (fun qj s => qj <> 0 -> s = Real 1) q sq.
Proof.
  intros Hr. rewrite rdf2sq_eq.
  assert (Hg : length (repeat 1 (length r)) = length r) by apply repeat_length.
  destruct (integrand_parallel r _ 0 Hg) as (y & Hy & _).
  destruct r as [|r0 [|r1 r]]; try (simpl in Hr; lia).
  rewrite Hy. do 2 eexists. split; [reflexivity|].
  induction (linspace Qmin Qmax 1000) as [|qj l IH]; constructor; [|exact IH].
  intros Hq.
  change (r1 - r0) with (nth 1 (r0 :: r1 :: r) 0 - nth 0 (r0 :: r1 :: r) 0).
  rewrite (entry_parallel (r0 :: r1 :: r) _ rho qj Hr Hg).
  now apply S_of_q_ideal_gas.
Qed.

Lemma rdf2sq_ideal_gas_witness :
  exists q sq,
    rdf2sq [1; 2; 4] (repeat 1 (length [1; 2; 4])) 1 2 5 = Ok (q, sq) /\
    Forall2 (fun qj s => qj <> 0 -> s = Real 1) q sq.
Proof.
  apply (rdf2sq_ideal_gas [1; 2; 4] 1 2 5). simpl. lia.
Defined.

(** X2. With at least two radii, a g(r) array that is neither as long
    as the radii nor of length one cannot be multiplied with them: the call
    raises the broadcasting error and returns nothing. *)
Theorem rdf2sq_shape_mismatch r g Qmin Qmax rho :
  (2 <= length r)%nat -> length g <> length r -> length g <> 1%nat ->
  rdf2sq r g Qmin Qmax rho = Raise BroadcastError.
Proof.
  intros Hr Hg H1. rewrite rdf2sq_eq.
  destruct r as [|r0 [|r1 r]]; try (simpl in Hr; lia).
  unfold integrand, broadcast2. rewrite length_map.
  destruct (Nat.eqb_spec (length (r0 :: r1 :: r)) (length g)) as [E|_];
    [congruence|].
  destruct g as [|g0 [|g1 g]]; try reflexivity.
  now contradiction H1.
Qed.

Lemma rdf2sq_shape_mismatch_witness :
  rdf2sq [1; 2; 3] [1; 1] 1 2 1 = Raise BroadcastError.
Proof.
  apply (rdf2sq_shape_mismatch [1; 2; 3] [1; 1] 1 2 1); simpl; lia.
Defined.

Lemma integrand_scalar_g r c qj :
  (2 <= length r)%nat ->
  integrand r [c] qj = integrand r (repeat c (length r)) qj.
Proof.
  intros Hr. unfold integrand.
  assert (E1 : broadcast2 Rmult r (map (fun g => g - 1) [c])
               = Ok (map (fun x => x * (c - 1)) r)).
  { unfold broadcast2. simpl map. simpl (length [_]).
    destruct (Nat.eqb_spec (length r) 1) as [E|_]; [lia|].
    destruct r as [|r0 [|r1 r]]; try (simpl in Hr; lia). reflexivity. }
  assert (E2 : broadcast2 Rmult r (map (fun g => g - 1) (repeat c (length r)))
               = Ok (map (fun x => x * (c - 1)) r)).
  { unfold broadcast2. rewrite length_map, repeat_length, Nat.eqb_refl.
    rewrite map_repeat. now rewrite combine_repeat_r. }
  now rewrite E1, E2.
Qed.

(** X3. A g(r) of length one is stretched over the radii: the call
    gives what it gives for that value repeated once per radius. *)
Theorem rdf2sq_scalar_g r c Qmin Qmax rho :
  (2 <= length r)%nat ->
  rdf2sq r [c] Qmin Qmax rho = rdf2sq r (repeat c (length r)) Qmin Qmax rho.
Proof.
  intros Hr. rewrite !rdf2sq_eq.
  assert (Hint : forall qj, integrand r [c] qj = integrand r (repeat c (length r)) qj)
    by (intros; now apply integrand_scalar_g).
  destruct r as [|r0 [|r1 r']]; try (simpl in Hr; lia).
  rewrite (Hint 0).
  destruct (integrand (r0 :: r1 :: r') (repeat c (length (r0 :: r1 :: r'))) 0);
    [|reflexivity].
  do 2 f_equal. apply map_ext. intros qj.
  unfold entry, values. now rewrite (Hint qj).
Qed.

Lemma rdf2sq_scalar_g_witness :
  rdf2sq [1; 2; 3] [7] 1 2 1 = rdf2sq [1; 2; 3] (repeat 7 (length [1; 2; 3])) 1 2 1.
Proof.
  apply (rdf2sq_scalar_g [1; 2; 3] 7 1 2 1). simpl. lia.
Defined.

Lemma broadcast2_opp_r a b :
  broadcast2 Rmult a (map Ropp b)
  = match broadcast2 Rmult a b with
    | Ok y => Ok (map Ropp y)
    | Raise e => Raise e
    end.
Proof.
  unfold broadcast2. rewrite length_map.
  destruct (length a =? length b)%nat.
  - f_equal. rewrite map_map. revert b.
    induction a as [|x a IH]; intros [|y b]; simpl; try reflexivity.
    rewrite IH. f_equal. ring.
  - destruct a as [|a0 [|a1 a]].
    + destruct b as [|b0 [|b1 b]]; reflexivity.
    + f_equal. rewrite !map_map. apply map_ext. intros; ring.
    + destruct b as [|b0 [|b1 b]]; try reflexivity.
      change (map Ropp [b0]) with [- b0].
      cbv beta iota. rewrite map_map. f_equal. apply map_ext. intros; ring.
Qed.

Lemma trapz_opp y d : trapz (map Ropp y) d = - trapz y d.
Proof.
  rewrite !trapz_trapezoid_rule, length_map.
  rewrite (trapezoid_rule_ext _ _ (fun i => -1 * nth i y 0)).
  - rewrite trapezoid_rule_scal. ring.
  - intros i _. destruct (Nat.lt_ge_cases i (length y)) as [Hi|Hi].
    + rewrite (nth_indep _ 0 (- 0)) by now rewrite length_map.
      rewrite (map_nth Ropp). ring.
    + rewrite !nth_overflow by (rewrite ?length_map; exact Hi). ring.
Qed.

(** X5. The stored value is an even function of the momentum: at -q the
    code computes what it computes at q (the sine and the divisor change
    sign together), errors included. *)
Theorem sq_entry_even r g dr rho qj :
  sq_entry r g dr rho (- qj) = sq_entry r g dr rho qj.
Proof.
  unfold sq_entry, integrand.
  destruct (broadcast2 Rmult r (map (fun g0 => g0 - 1) g)) as [a|e]; [|reflexivity].
  simpl bind.
  replace (map sin (map (fun x => - qj * x) r))
    with (map Ropp (map sin (map (fun x => qj * x) r))).
  2:{ rewrite !map_map. apply map_ext. intros x.
      rewrite <- sin_neg. f_equal. ring. }
  rewrite broadcast2_opp_r.
  destruct (broadcast2 Rmult a (map sin (map (fun x => qj * x) r))) as [y|e];
    [|reflexivity].
  simpl bind. rewrite trapz_opp. unfold div.
  destruct (Req_EM_T (- qj) 0) as [E|E]; destruct (Req_EM_T qj 0) as [E'|E'];
    try reflexivity; try (exfalso; lra).
  simpl. do 3 f_equal. field. exact E'.
Qed.

End TransformMore.

(** ** More about the transform under rounding *)

Module Transform64More.

Import F64 Np64 Transform64 Transform64Facts.

Lemma sub_diag64 x : is_finite x = true -> sub x x = S754_zero false.
Proof.
  destruct x as [[|]| | |s m e]; try discriminate; intros _; try reflexivity.
  unfold sub, SFsub. cbv zeta. rewrite Z.sub_diag. reflexivity.
Qed.

Lemma eqb_refl64 x : is_finite x = true -> eqb x x = true.
Proof.
  destruct x as [[|]| | |s m e]; try discriminate; intros _; try reflexivity.
  apply eqb_refl_finite.
Qed.

Lemma Forall_removelast A (P : A -> Prop) l : Forall P l -> Forall P (removelast l).
Proof.
  induction 1 as [|x l Hx Hl IH]; [constructor|].
  simpl. destruct l; [constructor|]. constructor; assumption.
Qed.

(** Every [j / 999] for [j] below 1000 is a finite float64. *)
Lemma arange_div_finite :
  forallb (fun v => is_finite (F64.div v (of_nat 999))) (arange 1000) = true.
Proof. vm_compute. reflexivity. Qed.

(** X4. The range is not validated.  With Qmin = Qmax (a finite value)
    a call that returns gives a grid of 1000 points that are all equal to
    Qmin; the step is zero and no error is raised for it. *)
Theorem rdf2sq_degenerate_range {numpy : Numpy} r g Q rho q sq :
  is_finite Q = true ->
  Transform64.rdf2sq r g Q Q rho = Ok (q, sq) ->
  length q = 1000%nat /\
  linspace_step Q Q 1000 = zero /\
  Forall (fun qj => eqb qj Q = true) q.
Proof.
  intros HQ Hrun. rewrite rdf2sq_eq64 in Hrun.
  destruct r as [|r0 [|r1 r]]; try discriminate.
  destruct (Transform64.integrand (r0 :: r1 :: r) g zero); [|discriminate].
  injection Hrun as <- _.
  split; [apply linspace_length64|].
  assert (Hstep : F64.div (sub Q Q) (of_nat 999) = zero)
    by (rewrite (sub_diag64 Q HQ); reflexivity).
  split; [exact Hstep|].
  unfold linspace. change (1000 - 1)%nat with 999%nat.
  change (0 <? 999)%nat with true. change (1 <? 1000)%nat with true. cbv zeta.
  rewrite Hstep. change (eqb zero zero) with true. cbv iota.
  rewrite (sub_diag64 Q HQ).
  set (y := map (fun v => add v Q) _).
  assert (Hy : Forall (fun qj => eqb qj Q = true) y).
  { subst y. rewrite map_map. apply Forall_map, Forall_forall. intros v Hv.
    pose proof (proj1 (forallb_forall _ _) arange_div_finite v Hv) as Hf.
    cbv beta in Hf.
    destruct (F64.div v (of_nat 999)) as [s| | |s m e]; try discriminate;
      now apply add_zero_l. }
  clearbody y. unfold set_last. destruct y as [|y0 y]; [constructor|].
  apply Forall_app. split; [now apply Forall_removelast|].
  constructor; [now apply eqb_refl64 | constructor].
Qed.

Lemma rdf2sq_degenerate_range_witness :
  exists q sq,
    @Transform64.rdf2sq sample_numpy radii_0_1 g_2_2 one one rho_1e_17 = Ok (q, sq) /\
    length q = 1000%nat /\
    Forall (fun qj => eqb qj one = true) q.
Proof.
  eassert (E : @Transform64.rdf2sq sample_numpy radii_0_1 g_2_2 one one rho_1e_17
               = Ok (_, _)) by (rewrite rdf2sq_eq64; reflexivity).
  destruct (@rdf2sq_degenerate_range sample_numpy _ _ one _ _ _ eq_refl E)
    as (Hl & _ & Hf).
  do 2 eexists. split; [exact E|]. split; assumption.
Defined.

End Transform64More.

(** ** More about the accumulator *)

Module AccumulatorMore.

Import F32 F32Facts Gsd PySeq Freud Accumulator AccumulatorTrace AccumulatorFacts.

(** *** Index arrays and lookups *)

Lemma take_in_range A (a : list A) idx :
  Forall (fun i => (i < length a)%nat) idx -> exists xs, take a idx = Ok xs.
Proof.
  induction idx as [|i idx IH]; intros H; [now exists []|].
  inversion H as [|? ? Hi Hrest]; subst.
  destruct (IH Hrest) as (xs & Hxs).
  destruct (nth_error a i) as [x|] eqn:Ex.
  - exists (x :: xs). simpl. unfold getitem. rewrite Ex. simpl. now rewrite Hxs.
  - apply nth_error_None in Ex. lia.
Qed.

Lemma take_out_of_range A (a : list A) idx :
  ~ Forall (fun i => (i < length a)%nat) idx -> take a idx = Raise IndexError.
Proof.
  induction idx as [|i idx IH]; intros H; [exfalso; apply H; constructor|].
  simpl. unfold getitem.
  destruct (nth_error a i) as [x|] eqn:Ex; [|reflexivity].
  simpl. rewrite IH; [reflexivity|].
  intros Hrest. apply H. constructor; [|exact Hrest].
  apply nth_error_Some. congruence.
Qed.

Lemma take_raises A (a : list A) idx e : take a idx = Raise e -> e = IndexError.
Proof.
  revert e. induction idx as [|i idx IH]; intros e H; [discriminate|].
  simpl in H. unfold getitem in H.
  destruct (nth_error a i); [|now injection H].
  simpl in H. destruct (take a idx); [discriminate|].
  simpl in H. injection H as <-. now apply IH.
Qed.

Lemma bool_index_raises A (a : list A) mask e :
  bool_index a mask = Raise e -> e = IndexError /\ length a <> length mask.
Proof.
  unfold bool_index. destruct (Nat.eqb_spec (length a) (length mask)); [discriminate|].
  intros [= <-]. auto.
Qed.

Lemma Forall2_In_l A B (R : A -> B -> Prop) l l' x :
  Forall2 R l l' -> In x l -> exists y, In y l' /\ R x y.
Proof.
  induction 1 as [|a b l l' Hab _ IH]; intros Hin; [contradiction|].
  destruct Hin as [<-|Hin]; [exists b; split; [now left | assumption]|].
  destruct (IH Hin) as (y & Hy & HR). exists y. split; [now right | assumption].
Qed.

Lemma filter_length_le A (f : A -> bool) l : (length (filter f l) <= length l)%nat.
Proof. induction l as [|x l IH]; simpl; [lia|]. destruct (f x); simpl; lia. Qed.

(** X14. [types.index(name)] resolves a species name to the FIRST
    position that holds it: the position found holds the name and no
    earlier one does, so a name listed twice is resolved to its first
    entry. *)
Theorem index_first_occurrence l x i :
  index l x = Ok i ->
  nth_error l i = Some x /\ forall j, (j < i)%nat -> nth_error l j <> Some x.
Proof.
  revert i. induction l as [|y l IH]; intros i H; [discriminate|].
  simpl in H. destruct (String.eqb_spec y x) as [->|Hne].
  - injection H as <-. split; [reflexivity|]. intros j Hj. lia.
  - destruct (index l x) as [k|] eqn:Ek; [|discriminate].
    simpl in H. injection H as <-.
    destruct (IH k eq_refl) as [Hk Hfirst]. split; [exact Hk|].
    intros [|j] Hj; simpl; [congruence|]. apply Hfirst. lia.
Qed.

Lemma index_first_occurrence_witness :
  nth_error ["A"; "B"; "B"]%string 1 = Some "B"%string /\
  forall j, (j < 1)%nat -> nth_error ["A"; "B"; "B"]%string j <> Some "B"%string.
Proof.
  apply (index_first_occurrence ["A"; "B"; "B"]%string "B"%string 1). reflexivity.
Defined.

(** X23. Frame ranges follow Python's slices: a negative [start] counts
    from the end, so [start = -k] with no [stop] selects exactly the last
    k frames of the trajectory, in order. *)
Theorem slice_last_frames A (l : list A) (k : nat) :
  (1 <= k <= length l)%nat ->
  slice l (- Z.of_nat k) None = skipn (length l - k) l /\
  length (slice l (- Z.of_nat k) None) = k.
Proof.
  intros Hk. unfold slice, clamp.
  destruct (Z.ltb_spec (- Z.of_nat k) 0) as [_|H]; [|lia].
  rewrite Z.max_l by lia.
  replace (Z.to_nat (- Z.of_nat k + Z.of_nat (length l))) with (length l - k)%nat by lia.
  replace (Z.to_nat (Z.of_nat (length l) - (- Z.of_nat k + Z.of_nat (length l))))
    with k by lia.
  assert (Hlen : length (skipn (length l - k) l) = k) by (rewrite length_skipn; lia).
  assert (E : firstn k (skipn (length l - k) l) = skipn (length l - k) l)
    by (rewrite <- Hlen at 1; apply firstn_all).
  rewrite E. split; [reflexivity | exact Hlen].
Qed.

Lemma slice_last_frames_witness :
  slice two_frames (- Z.of_nat 1) None = skipn (length two_frames - 1) two_frames /\
  length (slice two_frames (- Z.of_nat 1) None) = 1%nat.
Proof.
  apply (slice_last_frames _ two_frames 1). simpl. lia.
Defined.

Section WithFreud.

Context {freud : Oracle}.

(** *** [snap_molecule_indices] *)

Lemma snap_molecule_indices_eq snap t :
  snap_molecule_indices snap t =
  match take (position (frame_particles snap)) (map fst (bonds_group snap)) with
  | Raise e => (t, Raise e)
  | Ok qp =>
      match take (position (frame_particles snap)) (map snd (bonds_group snap)) with
      | Raise e => (t, Raise e)
      | Ok p =>
          (t ++ [Clustered],
           Ok (cluster (configuration_box snap, position (frame_particles snap))
                 (from_arrays (map fst (bonds_group snap)) (map snd (bonds_group snap))
                    (compute_distances (configuration_box snap) qp p))))
      end
  end.
Proof.
  unfold snap_molecule_indices. cbv zeta. cbn [fst snd].
  rewrite mbind_lift.
  destruct (take _ (map fst _)) as [qp|e]; [|reflexivity].
  rewrite mbind_lift.
  destruct (take _ (map snd _)) as [p|e]; reflexivity.
Qed.

(** X13. Every bond must name two particles of the frame.  When
    [snap_molecule_indices] returns labels, each bond index is below the
    number of positions and the clustering was called exactly once; a
    bond that names a particle index past the positions makes it raise
    before any clustering. *)
Theorem snap_molecule_indices_bonds snap t :
  let in_range :=
    Forall (fun b => (fst b < length (position (frame_particles snap)))%nat /\
                     (snd b < length (position (frame_particles snap)))%nat)
           (bonds_group snap) in
  (forall t' labels,
     snap_molecule_indices snap t = (t', Ok labels) ->
     in_range /\ t' = t ++ [Clustered]) /\
  (~ in_range -> exists e, snap_molecule_indices snap t = (t, Raise e)).
Proof.
  cbv zeta. rewrite snap_molecule_indices_eq.
  set (pos := position (frame_particles snap)).
  assert (Hsplit : Forall (fun b => (fst b < length pos)%nat /\ (snd b < length pos)%nat)
                          (bonds_group snap) <->
                   Forall (fun i => (i < length pos)%nat) (map fst (bonds_group snap)) /\
                   Forall (fun i => (i < length pos)%nat) (map snd (bonds_group snap))).
  { rewrite !Forall_map. rewrite !Forall_forall. split.
    - intros H. split; intros b Hb; apply (H b Hb).
    - intros [H1 H2] b Hb. split; [apply (H1 b Hb) | apply (H2 b Hb)]. }
  assert (Hok : forall idx l, take pos idx = Ok l ->
                              Forall (fun i => (i < length pos)%nat) idx).
  { intros idx l E.
    destruct (Forall_dec (fun i => (i < length pos)%nat)
                (fun i => lt_dec i (length pos)) idx) as [|Hn]; [assumption|].
    rewrite (take_out_of_range _ pos _ Hn) in E. discriminate. }
  destruct (take pos (map fst (bonds_group snap))) as [qp|e1] eqn:E1.
  - destruct (take pos (map snd (bonds_group snap))) as [p|e2] eqn:E2.
    + split.
      * intros t' labels [= <- _]. split; [|reflexivity].
        apply Hsplit. split; eapply Hok; eassumption.
      * intros H. exfalso. apply H, Hsplit. split; eapply Hok; eassumption.
    + split; [intros; discriminate | eauto].
  - split; [intros; discriminate | eauto].
Qed.

(** *** The setup in full *)

Lemma setup_ok_log trajectory A_name B_name r_max r_min bins excl t t1 s rdf :
  setup trajectory A_name B_name r_max r_min bins excl t = (t1, Ok (s, rdf)) ->
  t1 = t ++ Constructed :: (if excl then [Clustered] else []) /\
  (if excl then exists m, s_molecules s = Some m else s_molecules s = None) /\
  exists snap rest,
    trajectory = snap :: rest /\
    length (s_type_A s) = length (typeid (frame_particles snap)) /\
    length (s_type_B s) = length (typeid (frame_particles snap)) /\
    s_r_max s = radius_in_force snap r_max /\
    RDF_new bins (radius_in_force snap r_max) r_min = Ok rdf.
Proof.
  destruct trajectory as [|snap rest]; [discriminate|].
  intros H. rewrite setup_first in H.
  destruct (RDF_new bins (radius_in_force snap r_max) r_min) as [rdf0|e] eqn:Hnew;
    [|discriminate].
  destruct (index _ A_name) as [iA|e]; [|discriminate].
  destruct (index _ B_name) as [iB|e]; [|discriminate].
  cbv zeta in H. apply mbind_ok in H as (mol & t2 & Hmol & H).
  unfold ret in H. injection H as <- <- <-.
  assert (Hlog : t2 = t ++ Constructed :: (if excl then [Clustered] else []) /\
                 (if excl then exists m, mol = Some m else mol = None)).
  { destruct excl.
    - apply mbind_ok in Hmol as (labels & t3 & Hsm & Hmol).
      rewrite snap_molecule_indices_eq in Hsm.
      destruct (take _ (map fst _)); [|discriminate].
      destruct (take _ (map snd _)); [|discriminate].
      injection Hsm as <- _.
      apply mbind_ok in Hmol as (mA & t4 & HA & Hmol). apply lift_ok in HA as [_ ->].
      apply mbind_ok in Hmol as (mB & t4 & HB & Hmol). apply lift_ok in HB as [_ ->].
      unfold ret in Hmol. injection Hmol as <- <-.
      rewrite <- app_assoc. split; [reflexivity | eauto].
    - unfold ret in Hmol. injection Hmol as <- <-. auto. }
  destruct Hlog as [-> Hm]. split; [reflexivity|]. split; [exact Hm|].
  exists snap, rest. simpl. rewrite !length_map. auto.
Qed.

(** *** One frame *)

Lemma frame_neighbors_ok A_name B_name s snap sys nl :
  frame_neighbors A_name B_name s snap = Ok (sys, nl) ->
  exists A_pos,
    bool_index (position (frame_particles snap)) (s_type_A s) = Ok A_pos /\
    sys = (configuration_box snap, A_pos) /\
    if String.eqb A_name B_name
    then nl = query sys A_pos (s_r_max s) true
    else exists B_pos,
        bool_index (position (frame_particles snap)) (s_type_B s) = Ok B_pos /\
        nl = query sys B_pos (s_r_max s) false.
Proof.
  unfold frame_neighbors. intros H.
  destruct (bool_index _ (s_type_A s)) as [A_pos|e]; [|discriminate].
  exists A_pos. split; [reflexivity|]. simpl in H.
  destruct (String.eqb A_name B_name).
  - simpl in H. injection H as <- <-. auto.
  - destruct (bool_index _ (s_type_B s)) as [B_pos|e]; [|discriminate].
    simpl in H. injection H as <- <-. eauto.
Qed.

Lemma frame_neighbors_raises A_name B_name s snap e :
  frame_neighbors A_name B_name s snap = Raise e -> e = IndexError.
Proof.
  unfold frame_neighbors. intros H.
  destruct (bool_index _ (s_type_A s)) as [A_pos|e1] eqn:EA.
  - simpl in H. destruct (String.eqb A_name B_name); [discriminate|].
    destruct (bool_index _ (s_type_B s)) as [B_pos|e2] eqn:EB; [discriminate|].
    simpl in H. injection H as <-. now apply bool_index_raises in EB.
  - simpl in H. injection H as <-. now apply bool_index_raises in EA.
Qed.

Lemma frame_neighbors_mismatch A_name B_name s snap :
  length (position (frame_particles snap)) <> length (s_type_A s) ->
  frame_neighbors A_name B_name s snap = Raise IndexError.
Proof.
  intros H. unfold frame_neighbors, bool_index.
  destruct (Nat.eqb_spec (length (position (frame_particles snap))) (length (s_type_A s)));
    [contradiction | reflexivity].
Qed.

Lemma process_frame_result A_name B_name excl s l snap t t' l' :
  process_frame A_name B_name excl s l snap t = (t', Ok l') ->
  exists e,
    frame_result A_name B_name excl s snap e /\
    t' = t ++ frame_log e /\
    l_rdf l' = RDF_compute (l_rdf l) (fst (fst e)) (snd e) false /\
    (if excl
     then l_pre_filter l' = Some (length (snd (fst e))) /\
          l_post_filter l' = Some (length (snd e))
     else l_pre_filter l' = l_pre_filter l /\ l_post_filter l' = l_post_filter l).
Proof.
  intros H. apply process_frame_ok in H as (sys & nl & Hnb & H).
  destruct excl.
  - destruct H as (mA & mB & nl' & Hmol & Hdrop & Hpre & Hpost & Hrdf & ->).
    apply drop_bonded_intermolecular in Hdrop. subst nl'.
    exists (sys, nl, intermolecular mA mB nl). unfold frame_result, frame_log.
    simpl. repeat split; eauto.
  - destruct H as (Hpre & Hpost & Hrdf & ->).
    exists (sys, nl, nl). unfold frame_result, frame_log. simpl. auto.
Qed.

Lemma drop_bonded_raises mA mB nl e : drop_bonded mA mB nl = Raise e -> e = IndexError.
Proof.
  unfold drop_bonded. intros H.
  destruct (take mA (map point_index nl)) as [ia|e1] eqn:Ea.
  - simpl in H.
    destruct (take mB (map query_point_index nl)) as [ib|e2] eqn:Eb; [discriminate|].
    simpl in H. injection H as <-. now apply take_raises in Eb.
  - simpl in H. injection H as <-. now apply take_raises in Ea.
Qed.

(** A frame raises nothing but IndexError once the labels are there. *)
Lemma process_frame_raises A_name B_name excl s l snap t t' e :
  (excl = true -> exists m, s_molecules s = Some m) ->
  process_frame A_name B_name excl s l snap t = (t', Raise e) -> e = IndexError.
Proof.
  intros Hmol. unfold process_frame. rewrite mbind_lift.
  destruct (frame_neighbors A_name B_name s snap) as [[sys nl]|e1] eqn:Hnb.
  2:{ intros [= _ <-]. now apply frame_neighbors_raises in Hnb. }
  rewrite mbind_emit. destruct excl.
  - destruct (Hmol eq_refl) as ([mA mB] & ->).
    unfold mbind, lift, ret, emit. cbn [fst snd].
    destruct (drop_bonded mA mB nl) as [nl'|e1] eqn:Hd; [discriminate|].
    intros [= _ <-]. now apply drop_bonded_raises in Hd.
  - unfold mbind, lift, ret, emit. discriminate.
Qed.

(** *** The loop *)

Lemma loop_ok A_name B_name excl s frames : forall l t t' l',
  loop A_name B_name excl s frames l t = (t', Ok l') ->
  exists es,
    Forall2 (frame_result A_name B_name excl s) frames es /\
    t' = t ++ flat_map frame_log es /\
    rdf_accumulated (l_rdf l') = rdf_accumulated (l_rdf l) ++ map frame_entry es /\
    rdf_bins (l_rdf l') = rdf_bins (l_rdf l) /\
    rdf_r_max (l_rdf l') = rdf_r_max (l_rdf l) /\
    rdf_r_min (l_rdf l') = rdf_r_min (l_rdf l) /\
    (filters_ordered l -> filters_ordered l').
Proof.
  induction frames as [|snap frames IH]; intros l t t' l' H.
  - simpl in H. unfold ret in H. injection H as <- <-.
    exists []. simpl. rewrite !app_nil_r. repeat split; auto.
  - simpl in H. apply mbind_ok in H as (l1 & t1 & Hp & H).
    apply process_frame_result in Hp as (e & He & -> & Hrdf & Hf).
    apply IH in H as (es & Hes & -> & Hacc & Hb & Hmax & Hmin & Hord).
    exists (e :: es). split; [now constructor|].
    rewrite Hacc, Hb, Hmax, Hmin, Hrdf. simpl.
    rewrite <- !app_assoc. repeat split; auto.
    intros Hl. apply Hord. unfold filters_ordered.
    destruct excl.
    + destruct Hf as [-> ->]. destruct He as (_ & mA & mB & _ & ->).
      apply filter_length_le.
    + destruct Hf as [-> ->]. exact Hl.
Qed.

(** A frame whose positions do not fit the species mask stops the loop. *)
Lemma loop_mismatch A_name B_name excl s frames : forall l t,
  (excl = true -> exists m, s_molecules s = Some m) ->
  Exists (fun snap => length (position (frame_particles snap)) <> length (s_type_A s))
         frames ->
  exists t', loop A_name B_name excl s frames l t = (t', Raise IndexError).
Proof.
  intros l t Hmol Hex. revert l t.
  induction Hex as [snap frames Hbad|snap frames _ IH]; intros l t; simpl.
  - unfold mbind, process_frame. rewrite mbind_lift.
    rewrite (frame_neighbors_mismatch _ _ _ _ Hbad). eauto.
  - unfold mbind.
    destruct (process_frame A_name B_name excl s l snap t) as [t1 [l1|e]] eqn:Hp.
    + apply IH.
    + apply (process_frame_raises _ _ _ _ _ _ _ _ _ Hmol) in Hp. subst e. eauto.
Qed.

(** *** The whole call *)

Lemma run_ok_inv trajectory A_name B_name start stop r_max r_min bins excl t t' rdf n :
  intermolecular_rdf trajectory A_name B_name start stop r_max r_min bins excl t
  = (t', Ok (rdf, n)) ->
  exists t1 s rdf0 l,
    setup trajectory A_name B_name r_max r_min bins excl t = (t1, Ok (s, rdf0)) /\
    loop A_name B_name excl s (slice trajectory start stop)
         {| l_rdf := rdf0; l_pre_filter := None; l_post_filter := None |} t1
    = (t', Ok l) /\
    rdf = l_rdf l /\
    normalization excl l = Ok n.
Proof.
  unfold intermolecular_rdf. intros H.
  apply mbind_ok in H as ([s rdf0] & t1 & Hs & H).
  apply mbind_ok in H as (l & t2 & Hl & H).
  apply mbind_ok in H as (n' & t3 & Hn & H). apply lift_ok in Hn as [Hn ->].
  unfold ret in H. injection H as <- <- <-.
  exists t1, s, rdf0, l. auto.
Qed.

Lemma RDF_new_fields bins r r_min rdf :
  RDF_new bins r r_min = Ok rdf ->
  rdf_bins rdf = bins /\ rdf_r_min rdf = r_min /\
  rdf_r_max rdf = r /\ rdf_accumulated rdf = [].
Proof.
  unfold RDF_new.
  destruct (_ || _)%bool; [discriminate|].
  destruct (bins <? 1)%Z; [discriminate|].
  destruct (ltb r_min zero); [discriminate|].
  destruct (leb r r_min); [discriminate|].
  intros [= <-]. auto.
Qed.

Lemma flat_map_frame_log es :
  flat_map frame_log es
  = flat_map (fun c : nat * nat => [Queried (fst c); Accumulated (snd c)])
             (map (fun e : system * nlist * nlist =>
                     (length (snd (fst e)), length (snd e))) es).
Proof. induction es as [|e es IH]; simpl; [reflexivity | now rewrite IH]. Qed.

(** X6. The calls a returning run makes to the collaborator, in order:
    the histogram is constructed once; the molecules are clustered once
    when exclusion is on and never otherwise; then every frame of the
    range gets one neighbour query followed by one accumulation, never of
    more pairs than the query found and of exactly those when exclusion is
    off. *)
Theorem call_log trajectory A_name B_name start stop r_max r_min bins excl t t' rdf n :
  intermolecular_rdf trajectory A_name B_name start stop r_max r_min bins excl t
  = (t', Ok (rdf, n)) ->
  exists counts : list (nat * nat),
    length counts = length (slice trajectory start stop) /\
    t' = t ++ Constructed :: (if excl then [Clustered] else [])
           ++ flat_map (fun c => [Queried (fst c); Accumulated (snd c)]) counts /\
    Forall (fun c => (snd c <= fst c)%nat /\ (excl = false -> snd c = fst c)) counts.
Proof.
  intros H. apply run_ok_inv in H as (t1 & s & rdf0 & l & Hs & Hl & _ & _).
  apply setup_ok_log in Hs as (-> & _ & _).
  apply loop_ok in Hl as (es & Hes & -> & _).
  exists (map (fun e : system * nlist * nlist =>
                 (length (snd (fst e)), length (snd e))) es).
  split; [|split].
  - rewrite length_map. symmetry. exact (Forall2_length Hes).
  - rewrite flat_map_frame_log, <- app_assoc. reflexivity.
  - apply Forall_map. clear - Hes.
    induction Hes as [|snap e frames es He _ IH]; constructor; [|exact IH].
    destruct He as [_ He]. simpl. destruct excl.
    + destruct He as (mA & mB & _ & ->). split; [apply filter_length_le | discriminate].
    + rewrite He. auto.
Qed.

(** X7. The histogram a returning run hands back was built with the
    bin count and [r_min] of the call and the radius in force, and holds
    one accumulated system per frame of the range, in the order of the
    range, each in the box of its own frame. *)
Theorem histogram_contents
        trajectory A_name B_name start stop r_max r_min bins excl t t' rdf n :
  intermolecular_rdf trajectory A_name B_name start stop r_max r_min bins excl t
  = (t', Ok (rdf, n)) ->
  rdf_bins rdf = bins /\
  rdf_r_min rdf = r_min /\
  (exists snap rest, trajectory = snap :: rest /\
                     rdf_r_max rdf = radius_in_force snap r_max) /\
  Forall2 (fun snap e => fst (fst e) = configuration_box snap)
          (slice trajectory start stop) (rdf_accumulated rdf).
Proof.
  intros H. apply run_ok_inv in H as (t1 & s & rdf0 & l & Hs & Hl & -> & _).
  apply setup_ok_log in Hs as (_ & _ & snap & rest & -> & _ & _ & _ & Hnew).
  apply RDF_new_fields in Hnew as (Hb & Hmin & Hmax & Hacc).
  apply loop_ok in Hl as (es & Hes & _ & Hacc' & Hb' & Hmax' & Hmin' & _).
  simpl in Hacc', Hb', Hmax', Hmin'.
  rewrite Hb', Hmin', Hmax', Hacc', Hacc. simpl.
  repeat split; try assumption; [eauto|].
  clear - Hes. induction Hes as [|snap' e frames es He _ IH]; simpl; constructor;
    [|exact IH].
  destruct He as [He _]. apply frame_neighbors_ok in He as (A_pos & _ & He & _).
  simpl. now rewrite He.
Qed.

(** X8. When both species names are the same, every neighbour list that
    reaches the histogram comes from a query of the system's own points
    against themselves with self-pairs excluded: it is that query's result
    when exclusion of bonded pairs is off, and a selection from it when it
    is on. *)
Theorem same_species_self_excluded
        trajectory A_name start stop r_max r_min bins excl t t' rdf n :
  intermolecular_rdf trajectory A_name A_name start stop r_max r_min bins excl t
  = (t', Ok (rdf, n)) ->
  Forall (fun e =>
            let found := query (fst e) (snd (fst e)) (rdf_r_max rdf) true in
            if excl then exists f, snd e = filter f found else snd e = found)
         (rdf_accumulated rdf).
Proof.
  intros H. apply run_ok_inv in H as (t1 & s & rdf0 & l & Hs & Hl & -> & _).
  apply setup_ok_log in Hs as (_ & _ & snap & rest & -> & _ & _ & Hr & Hnew).
  apply RDF_new_fields in Hnew as (_ & _ & Hmax & Hacc).
  apply loop_ok in Hl as (es & Hes & _ & Hacc' & _ & Hmax' & _).
  simpl in Hacc', Hmax'. rewrite Hacc', Hacc, Hmax', Hmax, <- Hr. simpl.
  apply Forall_map. clear - Hes.
  induction Hes as [|snap' e frames es He _ IH]; constructor; [|exact IH].
  destruct e as [[sys pre] post]. destruct He as [Hnb He]. cbn [fst snd] in Hnb, He.
  apply frame_neighbors_ok in Hnb as (A_pos & _ & -> & Hnl).
  rewrite String.eqb_refl in Hnl. cbv zeta. unfold frame_entry. cbn [fst snd].
  rewrite <- Hnl.
  destruct excl.
  - destruct He as (mA & mB & _ & ->). unfold intermolecular. eauto.
  - exact He.
Qed.

(** X9. With exclusion on, no pair whose two particles carry the same
    molecule label is ever folded into the histogram. *)
Theorem no_intramolecular_pairs
        trajectory A_name B_name start stop r_max r_min bins t t1 s rdf0 t' rdf n :
  setup trajectory A_name B_name r_max r_min bins true t = (t1, Ok (s, rdf0)) ->
  intermolecular_rdf trajectory A_name B_name start stop r_max r_min bins true t
  = (t', Ok (rdf, n)) ->
  exists mA mB,
    s_molecules s = Some (mA, mB) /\
    Forall (fun e =>
              Forall (fun b => nth (point_index b) mA O
                               <> nth (query_point_index b) mB O) (snd e))
           (rdf_accumulated rdf).
Proof.
  intros Hs H. apply run_ok_inv in H as (t1' & s' & rdf0' & l & Hs' & Hl & -> & _).
  rewrite Hs in Hs'. injection Hs' as <- <- <-.
  apply setup_ok_log in Hs as (_ & ([mA mB] & Hmol) & snap & rest & _ & _ & _ & _ & Hnew).
  apply RDF_new_fields in Hnew as (_ & _ & _ & Hacc).
  apply loop_ok in Hl as (es & Hes & _ & Hacc' & _).
  simpl in Hacc'. rewrite Hacc in Hacc'. simpl in Hacc'.
  exists mA, mB. split; [exact Hmol|]. rewrite Hacc'.
  apply Forall_map. clear - Hes Hmol.
  induction Hes as [|snap' e frames es He _ IH]; constructor; [|exact IH].
  destruct He as (_ & mA' & mB' & Hmol' & He).
  rewrite Hmol in Hmol'. injection Hmol' as <- <-.
  unfold frame_entry. cbn [snd]. rewrite He. unfold intermolecular.
  apply Forall_forall. intros b Hb. apply filter_In in Hb as [_ Hb].
  apply negb_true_iff, Nat.eqb_neq in Hb. exact Hb.
Qed.

(** X10. The survival fraction a run returns lies between 0 and 1. *)
Theorem survival_fraction_bounds
        trajectory A_name B_name start stop r_max r_min bins excl t t' rdf n :
  intermolecular_rdf trajectory A_name B_name start stop r_max r_min bins excl t
  = (t', Ok (rdf, n)) ->
  (0 <= n)%Q /\ (n <= 1)%Q.
Proof.
  intros H. apply run_ok_inv in H as (t1 & s & rdf0 & l & _ & Hl & _ & Hn).
  apply loop_ok in Hl as (es & _ & _ & _ & _ & _ & _ & Hord).
  specialize (Hord I). unfold filters_ordered in Hord.
  unfold normalization in Hn. destruct excl.
  - destruct (l_post_filter l) as [a|]; [|discriminate].
    destruct (l_pre_filter l) as [b|]; [|discriminate].
    destruct b as [|b]; [discriminate|].
    change (Ok (Qmake (Z.of_nat a) (Pos.of_nat (S b))) = Ok n) in Hn.
    injection Hn as <-.
    assert (E : Z.pos (Pos.of_nat (S b)) = Z.succ (Z.of_nat b))
      by (rewrite <- Pos.of_nat_succ; apply Zpos_P_of_succ_nat).
    unfold Qle. simpl in E |- *. rewrite E. lia.
  - injection Hn as <-. split; discriminate.
Qed.

(** X11. The species masks come from the first frame and are applied to
    every frame as they are: when a frame of the range holds a number of
    positions different from the first frame's number of type ids, the
    call returns nothing; the frame is not skipped. *)
Theorem particle_count_mismatch
        snap0 rest A_name B_name start stop r_max r_min bins excl t snap :
  In snap (slice (snap0 :: rest) start stop) ->
  length (position (frame_particles snap)) <> length (typeid (frame_particles snap0)) ->
  ~ exists t' rdf n,
      intermolecular_rdf (snap0 :: rest) A_name B_name start stop r_max r_min bins excl t
      = (t', Ok (rdf, n)).
Proof.
  intros Hin Hlen (t' & rdf & n & Hrun).
  apply run_ok_inv in Hrun as (t1 & s & rdf0 & l & Hs & Hloop & _ & _).
  apply setup_ok_log in Hs as (_ & _ & snap' & rest' & Heq & HA & _).
  injection Heq as <- <-.
  apply loop_ok in Hloop as (es & Hes & _).
  destruct (Forall2_In_l _ _ _ _ _ _ Hes Hin) as (e & _ & Hnb & _).
  apply frame_neighbors_ok in Hnb as (A_pos & Hbi & _).
  apply Hlen. rewrite <- HA.
  unfold bool_index in Hbi.
  destruct (Nat.eqb_spec (length (position (frame_particles snap))) (length (s_type_A s)));
    [assumption | discriminate].
Qed.

(** X12. Without exclusion an empty frame range is no error: a call
    that got through its setup returns the freshly constructed, empty
    histogram and the fraction 1. *)
Theorem empty_range_without_exclusion
        trajectory A_name B_name start stop r_max r_min bins t t1 s rdf0 :
  setup trajectory A_name B_name r_max r_min bins false t = (t1, Ok (s, rdf0)) ->
  slice trajectory start stop = [] ->
  intermolecular_rdf trajectory A_name B_name start stop r_max r_min bins false t
  = (t1, Ok (rdf0, 1%Q)) /\
  rdf_accumulated rdf0 = [].
Proof.
  intros Hs Hslice. split.
  - unfold intermolecular_rdf, mbind at 1. rewrite Hs, Hslice. reflexivity.
  - apply setup_ok_log in Hs as (_ & _ & snap & rest & _ & _ & _ & _ & Hnew).
    now apply RDF_new_fields in Hnew.
Qed.

End WithFreud.

Lemma snap_molecule_indices_bonds_witness :
  (bonds_group four_particles = [(0, 1)%nat] /\
   @snap_molecule_indices toy four_particles []
   = ([Clustered], Ok [0; 0; 1; 1]%nat)) /\
  exists e, @snap_molecule_indices toy dangling_bond [] = ([], Raise e).
Proof.
  split.
  - eassert (E : @snap_molecule_indices toy four_particles [] = (_, Ok _))
      by (vm_compute; reflexivity).
    destruct (@snap_molecule_indices_bonds toy four_particles []) as [H _].
    destruct (H _ _ E) as [_ Ht]. simpl in Ht.
    split; [reflexivity|]. exact E.
  - destruct (@snap_molecule_indices_bonds toy dangling_bond []) as [_ H].
    apply H. intros Hin. inversion Hin as [|b bs [_ Hb] _]. simpl in Hb. lia.
Defined.

Lemma call_log_witness :
  exists counts : list (nat * nat),
    length counts = length (slice two_frames 0 None) /\
    Forall (fun c => (snd c <= fst c)%nat /\ (true = false -> snd c = fst c)) counts.
Proof.
  eassert (E : @intermolecular_rdf toy two_frames "A" "A" 0 None None zero 1000 true []
               = (_, Ok (_, _))) by (vm_compute; reflexivity).
  destruct (@call_log toy _ _ _ _ _ _ _ _ _ _ _ _ _ E) as (counts & Hlen & _ & Hc).
  exists counts. split; assumption.
Defined.

Lemma histogram_contents_witness :
  exists rdf,
    rdf_bins rdf = 1000%Z /\
    Forall2 (fun snap e => fst (fst e) = configuration_box snap)
            (slice two_frames 0 None) (rdf_accumulated rdf).
Proof.
  eassert (E : @intermolecular_rdf toy two_frames "A" "A" 0 None None zero 1000 true []
               = (_, Ok (_, _))) by (vm_compute; reflexivity).
  destruct (@histogram_contents toy _ _ _ _ _ _ _ _ _ _ _ _ _ E) as (Hb & _ & _ & Hf).
  eexists. split; [exact Hb | exact Hf].
Defined.

Lemma same_species_self_excluded_witness :
  exists rdf,
    rdf_accumulated rdf <> [] /\
    Forall (fun e => snd e = toy_query (fst e) (snd (fst e)) (rdf_r_max rdf) true)
           (rdf_accumulated rdf).
Proof.
  eassert (E : @intermolecular_rdf toy two_frames "A" "A" 0 None None zero 1000 false []
               = (_, Ok (_, _))) by (vm_compute; reflexivity).
  pose proof (@same_species_self_excluded toy _ _ _ _ _ _ _ _ _ _ _ _ E) as H.
  eexists. split; [|exact H]. discriminate.
Defined.

Lemma no_intramolecular_pairs_witness :
  exists mA mB rdf,
    rdf_accumulated rdf <> [] /\
    Forall (fun e =>
              Forall (fun b => nth (point_index b) mA O
                               <> nth (query_point_index b) mB O) (snd e))
           (rdf_accumulated rdf).
Proof.
  eassert (E1 : @setup toy two_frames "A" "A" None zero 1000 true []
                = (_, Ok (_, _))) by (vm_compute; reflexivity).
  eassert (E2 : @intermolecular_rdf toy two_frames "A" "A" 0 None None zero 1000 true []
                = (_, Ok (_, _))) by (vm_compute; reflexivity).
  destruct (@no_intramolecular_pairs toy _ _ _ 0%Z None _ _ _ _ _ _ _ _ _ _ E1 E2)
    as (mA & mB & _ & H).
  exists mA, mB. eexists. split; [|exact H]. discriminate.
Defined.

Lemma survival_fraction_bounds_witness :
  (0 <= Qmake 8 12)%Q /\ (Qmake 8 12 <= 1)%Q.
Proof.
  eassert (E : @intermolecular_rdf toy two_frames "A" "A" 0 None None zero 1000 true []
               = (_, Ok (_, Qmake 8 12))) by (vm_compute; reflexivity).
  exact (@survival_fraction_bounds toy _ _ _ _ _ _ _ _ _ _ _ _ _ E).
Defined.

Lemma particle_count_mismatch_witness :
  ~ exists t' rdf n,
      @intermolecular_rdf toy [four_particles; three_particles] "A" "A" 0 None
                          (Some (of_Z 4)) zero 1000 false []
      = (t', Ok (rdf, n)).
Proof.
  apply (@particle_count_mismatch toy four_particles [three_particles] "A" "A"
           0%Z None (Some (of_Z 4)) zero 1000%Z false [] three_particles).
  - right. left. reflexivity.
  - simpl. lia.
Defined.

Lemma empty_range_without_exclusion_witness :
  exists t1 rdf0,
    @intermolecular_rdf toy two_frames "A" "A" 2 None None zero 1000 false []
    = (t1, Ok (rdf0, 1%Q)) /\
    rdf_accumulated rdf0 = [].
Proof.
  eassert (E : @setup toy two_frames "A" "A" None zero 1000 false []
               = (_, Ok (_, _))) by (vm_compute; reflexivity).
  do 2 eexists.
  exact (@empty_range_without_exclusion toy two_frames "A" "A" 2%Z None None zero
           1000%Z [] _ _ _ E eq_refl).
Defined.

End AccumulatorMore.

(** ** The plain RDF *)

Module SimpleRdfFacts.

Import F32 Gsd PySeq Freud Accumulator AccumulatorFacts SimpleRdf.

Section WithHistogram.

Context {histogram : Histogram}.

Lemma accumulate_ok b frames : forall rdf t t' rdf',
  accumulate b frames rdf t = (t', Ok rdf') ->
  exists added,
    t' = t ++ map (fun e : system * nlist => Accumulated (length (snd e))) added /\
    rdf_bins rdf' = rdf_bins rdf /\
    rdf_r_max rdf' = rdf_r_max rdf /\
    rdf_r_min rdf' = rdf_r_min rdf /\
    rdf_accumulated rdf' = rdf_accumulated rdf ++ added /\
    Forall2 (fun frame e => fst e = (b, position (frame_particles frame)))
            frames added.
Proof.
  induction frames as [|frame frames IH]; intros rdf t t' rdf' H.
  - simpl in H. unfold ret in H. injection H as <- <-.
    exists []. simpl. rewrite !app_nil_r. repeat split. constructor.
  - simpl in H. apply mbind_ok in H as (nl & t1 & Hnl & H).
    apply lift_ok in Hnl as [Hnl ->]. rewrite mbind_emit in H.
    apply IH in H as (added & -> & Hb & Hmax & Hmin & Hacc & Hf).
    exists ((b, position (frame_particles frame), nl) :: added).
    simpl in Hacc, Hb, Hmax, Hmin. simpl.
    rewrite <- !app_assoc in *. simpl. repeat split; try assumption.
    constructor; [reflexivity | exact Hf].
Qed.

(** X15. When [compute_simple_rdf] returns, the histogram it read its
    two arrays from holds one accumulated system per frame of the WHOLE
    trajectory, in order, with all positions of the frame and always the
    box of the first frame with the tilt factors dropped; the box of the
    frame itself is never looked at. *)
Theorem compute_simple_rdf_accumulates traj rmin rmax bins t t' centers values :
  compute_simple_rdf traj rmin rmax bins t = (t', Ok (centers, values)) ->
  exists snap rest rdf,
    traj = snap :: rest /\
    centers = bin_centers rdf /\ values = rdf_values rdf /\
    rdf_bins rdf = bins /\ rdf_r_max rdf = rmax /\ rdf_r_min rdf = rmin /\
    Forall2 (fun frame e =>
               fst e = (untilted (configuration_box snap),
                        position (frame_particles frame)))
            traj (rdf_accumulated rdf) /\
    frames_accumulated t' = (frames_accumulated t + length traj)%nat.
Proof.
  unfold compute_simple_rdf. destruct traj as [|snap rest]; [discriminate|].
  rewrite mbind_lift. cbn [getitem nth_error].
  rewrite mbind_lift. cbn [from_box edges]. rewrite mbind_lift.
  destruct (RDF_new bins rmax rmin) as [rdf0|e0] eqn:Hnew; [|discriminate].
  rewrite mbind_emit. intros H.
  apply mbind_ok in H as (rdf & t1 & Hacc & H).
  unfold ret in H. injection H as <- <- <-.
  change {| Lx := Lx (configuration_box snap); Ly := Ly (configuration_box snap);
            Lz := Lz (configuration_box snap); xy := zero; xz := zero; yz := zero |}
    with (untilted (configuration_box snap)) in Hacc.
  apply accumulate_ok in Hacc as (added & -> & Hb & Hmax & Hmin & Hacc & Hf).
  assert (Hfields : rdf_bins rdf0 = bins /\ rdf_r_min rdf0 = rmin /\
                    rdf_r_max rdf0 = rmax /\ rdf_accumulated rdf0 = []).
  { revert Hnew. unfold RDF_new.
    destruct (_ || _)%bool; [discriminate|].
    destruct (bins <? 1)%Z; [discriminate|].
    destruct (ltb rmin zero); [discriminate|].
    destruct (leb rmax rmin); [discriminate|].
    intros [= <-]. auto. }
  destruct Hfields as (Hb0 & Hmin0 & Hmax0 & Hacc0).
  rewrite Hacc0 in Hacc. simpl in Hacc.
  exists snap, rest, rdf. split; [reflexivity|]. do 2 (split; [reflexivity|]).
  rewrite Hb, Hmax, Hmin, Hb0, Hmax0, Hmin0. repeat split.
  - rewrite Hacc. exact Hf.
  - unfold frames_accumulated.
    rewrite !filter_app, !length_app. simpl.
    assert (Hall : forall l : list (system * nlist),
               length (filter (fun e => match e with Accumulated _ => true | _ => false end)
                              (map (fun e : system * nlist => Accumulated (length (snd e))) l))
               = length l).
    { induction l as [|x l IHl]; simpl; congruence. }
    pose proof (Forall2_length Hf) as Hlen. simpl in Hlen.
    rewrite Hall. simpl. unfold system in *. lia.
Qed.

End WithHistogram.

Lemma compute_simple_rdf_accumulates_witness :
  exists t' rdf,
    @compute_simple_rdf toy_histogram [sheared_frame; four_particles] zero (of_Z 4) 10 []
    = (t', Ok (@bin_centers toy_histogram rdf, @rdf_values toy_histogram rdf)) /\
    Forall2 (fun frame e =>
               fst e = (untilted (configuration_box sheared_frame),
                        position (frame_particles frame)))
            [sheared_frame; four_particles] (rdf_accumulated rdf).
Proof.
  eassert (E : @compute_simple_rdf toy_histogram [sheared_frame; four_particles]
                 zero (of_Z 4) 10 [] = (_, Ok (_, _))) by (vm_compute; reflexivity).
  destruct (@compute_simple_rdf_accumulates toy_histogram _ _ _ _ _ _ _ _ E)
    as (snap & rest & rdf & Heq & Hc & Hv & _ & _ & _ & Hf & _).
  injection Heq as <- <-.
  eexists. exists rdf. split; [|exact Hf].
  rewrite E. now rewrite <- Hc, <- Hv.
Defined.

End SimpleRdfFacts.

(** ** The starting lattice *)

Module LatticeFacts.

Local Open Scope R_scope.
Import Np NpFacts Lattice.

Lemma ceil_bounds x : x <= IZR (ceil x) < x + 1.
Proof.
  unfold ceil. rewrite opp_IZR.
  destruct (base_Int_part (- x)) as [H1 H2]. lra.
Qed.

Lemma cube_root_nonneg n : 0 <= cube_root n.
Proof.
  unfold cube_root. destruct (n =? 0)%nat; [lra|].
  unfold Rpower. left. apply exp_pos.
Qed.

Lemma cube_root_cube n : cube_root n ^ 3 = INR n.
Proof.
  unfold cube_root. destruct (Nat.eqb_spec n 0) as [->|Hn].
  - simpl. ring.
  - assert (Hpos : 0 < INR n) by (apply lt_0_INR; lia).
    rewrite <- Rpower_pow by (unfold Rpower; apply exp_pos).
    rewrite Rpower_mult.
    replace (1 / 3 * INR 3) with 1 by (simpl; field).
    now apply Rpower_1.
Qed.

Lemma cube_lt a b : 0 <= a -> a < b -> a ^ 3 < b ^ 3.
Proof.
  intros Ha Hab. simpl. rewrite !Rmult_1_r.
  assert (H1 : a * a < b * b) by nra.
  assert (H2 : a * (a * a) <= a * (b * b)) by (apply Rmult_le_compat_l; lra).
  assert (H3 : a * (b * b) < b * (b * b)) by (apply Rmult_lt_compat_r; nra).
  lra.
Qed.

Lemma cube_le a b : 0 <= a -> a <= b -> a ^ 3 <= b ^ 3.
Proof. intros Ha Hab. apply pow_incr. lra. Qed.

Lemma sites_per_edge_INR m :
  INR (sites_per_edge m) = IZR (ceil (cube_root (4 * m ^ 3))).
Proof.
  unfold sites_per_edge. rewrite INR_IZR_INZ, Z2Nat.id; [reflexivity|].
  apply le_IZR.
  pose proof (ceil_bounds (cube_root (4 * m ^ 3))).
  pose proof (cube_root_nonneg (4 * m ^ 3)). lra.
Qed.

(** The lattice has room for every particle. *)
Lemma sites_enough m : (4 * m ^ 3 <= sites_per_edge m ^ 3)%nat.
Proof.
  pose proof (ceil_bounds (cube_root (4 * m ^ 3))) as [Hlo _].
  pose proof (cube_root_nonneg (4 * m ^ 3)) as Hnn.
  rewrite <- sites_per_edge_INR in Hlo.
  apply INR_le. rewrite pow_INR, <- cube_root_cube.
  now apply cube_le.
Qed.

(** X17. The edge count K = ceil((4 m^3)^(1/3)) is the least number of
    sites per edge whose cube holds all 4 m^3 particles: K^3 is at least
    the particle count, and (K - 1)^3 falls short of it as soon as there is
    a particle. *)
Theorem sites_per_edge_least m :
  (4 * m ^ 3 <= sites_per_edge m ^ 3)%nat /\
  (1 <= m -> (sites_per_edge m - 1) ^ 3 < 4 * m ^ 3)%nat.
Proof.
  pose proof (ceil_bounds (cube_root (4 * m ^ 3))) as [Hlo Hhi].
  pose proof (cube_root_nonneg (4 * m ^ 3)) as Hnn.
  rewrite <- sites_per_edge_INR in Hlo, Hhi.
  split.
  - apply INR_le. rewrite pow_INR, <- cube_root_cube.
    now apply cube_le.
  - intros Hm. apply INR_lt. rewrite pow_INR, <- (cube_root_cube (4 * m ^ 3)).
    assert (Hpos : (0 < 4 * m ^ 3)%nat).
    { assert (0 < m ^ 3)%nat by (apply Nat.neq_0_lt_0, Nat.pow_nonzero; lia). lia. }
    assert (Hc : 0 < cube_root (4 * m ^ 3)).
    { destruct Hnn as [|E]; [assumption|]. exfalso.
      pose proof (cube_root_cube (4 * m ^ 3)) as Hcube. rewrite <- E in Hcube.
      apply lt_INR in Hpos. simpl in Hcube, Hpos. lra. }
    assert (HK : (1 <= sites_per_edge m)%nat).
    { destruct (Nat.eq_dec (sites_per_edge m) 0) as [E|]; [|lia].
      rewrite E in Hlo. change (INR 0) with 0 in Hlo. lra. }
    apply cube_lt.
    + apply pos_INR.
    + rewrite minus_INR by exact HK. change (INR 1) with 1. lra.
Qed.

Lemma sites_per_edge_least_witness : sites_per_edge 1 = 2%nat.
Proof.
  destruct (sites_per_edge_least 1) as [Hlo Hhi].
  specialize (Hhi (le_n 1)). simpl in Hlo, Hhi.
  destruct (sites_per_edge 1) as [|[|[|k]]]; simpl in *; try lia.
Defined.

(** *** The coordinate grid *)

Lemma linspace_open_length a b n : length (linspace_open a b n) = n.
Proof.
  unfold linspace_open.
  destruct (0 <? n)%nat; try destruct (Req_EM_T _ _);
    now rewrite !length_map, arange_length.
Qed.

Lemma linspace_open_nth a b n j :
  (j < n)%nat ->
  nth j (linspace_open a b n) 0 = a + INR j * ((b - a) / INR n).
Proof.
  intros Hj.
  assert (Hd : INR n <> 0) by (apply not_0_INR; lia).
  unfold linspace_open.
  replace (0 <? n)%nat with true by (symmetry; apply Nat.ltb_lt; lia).
  rewrite (nth_indep _ 0 (0 + a)).
  2:{ destruct (Req_EM_T _ _); now rewrite !length_map, arange_length. }
  rewrite (map_nth (fun v => v + a)).
  destruct (Req_EM_T _ _).
  - rewrite (nth_indep _ 0 (0 / INR n * (b - a)))
      by now rewrite length_map, arange_length.
    rewrite (map_nth (fun v => v / INR n * (b - a))).
    rewrite arange_nth by assumption. field. assumption.
  - rewrite (nth_indep _ 0 (0 * ((b - a) / INR n)))
      by now rewrite length_map, arange_length.
    rewrite (map_nth (fun v => v * ((b - a) / INR n))).
    rewrite arange_nth by assumption. ring.
Qed.

(** The coordinates along one edge: K sites, a lattice constant apart,
    starting at the lower face of the box. *)
Lemma edge_grid K a x :
  In x (linspace_open (- (INR K * a) / 2) (INR K * a / 2) K) ->
  exists i, (i < K)%nat /\ x = - (INR K * a) / 2 + INR i * a.
Proof.
  intros Hin. destruct (In_nth _ _ 0 Hin) as (i & Hi & <-).
  rewrite linspace_open_length in Hi. exists i. split; [exact Hi|].
  rewrite linspace_open_nth by exact Hi.
  assert (INR K <> 0) by (apply not_0_INR; lia). field. assumption.
Qed.

Lemma edge_grid_NoDup K a :
  a <> 0 -> NoDup (linspace_open (- (INR K * a) / 2) (INR K * a / 2) K).
Proof.
  intros Ha. apply (NoDup_nth _ 0). intros i j Hi Hj Heq.
  rewrite linspace_open_length in Hi, Hj.
  rewrite !linspace_open_nth in Heq by assumption.
  assert (HK : INR K <> 0) by (apply not_0_INR; lia).
  assert (Hstep : (INR K * a / 2 - - (INR K * a) / 2) / INR K = a) by (field; assumption).
  rewrite Hstep in Heq.
  apply INR_eq. nra.
Qed.

(** *** Triples *)

Lemma product3_length x : length (product3 x) = (length x ^ 3)%nat.
Proof.
  unfold product3.
  assert (Hin : forall (a : R) (l : list R),
             length (flat_map (fun b : R => map (fun c : R => (a, b, c)) x) l)
             = (length l * length x)%nat).
  { intros a l. induction l as [|b l IH]; simpl; [reflexivity|].
    rewrite length_app, length_map, IH. reflexivity. }
  assert (Hout : forall l : list R,
             length (flat_map (fun a : R => flat_map
                        (fun b : R => map (fun c : R => (a, b, c)) x) x) l)
             = (length l * (length x * length x))%nat).
  { induction l as [|a l IH]; simpl; [reflexivity|].
    rewrite length_app, Hin, IH. reflexivity. }
  rewrite Hout. simpl. lia.
Qed.

Lemma product3_In x a b c :
  In (a, b, c) (product3 x) <-> In a x /\ In b x /\ In c x.
Proof.
  unfold product3. rewrite in_flat_map. split.
  - intros (a' & Ha & H). apply in_flat_map in H as (b' & Hb & H).
    apply in_map_iff in H as (c' & Heq & Hc). injection Heq as -> -> ->. auto.
  - intros (Ha & Hb & Hc). exists a. split; [exact Ha|].
    apply in_flat_map. exists b. split; [exact Hb|].
    apply in_map_iff. exists c. auto.
Qed.

Lemma NoDup_flat_map A B (f : A -> list B) l :
  NoDup l -> (forall a, In a l -> NoDup (f a)) ->
  (forall a a' b, In a l -> In a' l -> In b (f a) -> In b (f a') -> a = a') ->
  NoDup (flat_map f l).
Proof.
  induction l as [|a l IH]; intros Hl Hf Hdis; simpl; [constructor|].
  inversion Hl as [|? ? Hnotin Hl']; subst.
  apply NoDup_app.
  - apply Hf. now left.
  - apply IH; [assumption | intros; apply Hf; now right |].
    intros a1 a2 b H1 H2. apply Hdis; now right.
  - intros b Hb Hb'. apply in_flat_map in Hb' as (a' & Ha' & Hb').
    assert (a = a') by (apply (Hdis a a' b); auto; [now left | now right]).
    subst a'. contradiction.
Qed.

Lemma NoDup_map_injective A B (f : A -> B) l :
  (forall a a', f a = f a' -> a = a') -> NoDup l -> NoDup (map f l).
Proof.
  intros Hf Hl. induction Hl as [|a l Hnotin _ IH]; simpl; constructor; [|exact IH].
  intros Hin. apply in_map_iff in Hin as (a' & Heq & Ha').
  apply Hf in Heq. subst a'. contradiction.
Qed.

Lemma product3_NoDup x : NoDup x -> NoDup (product3 x).
Proof.
  intros Hx. unfold product3. apply NoDup_flat_map; [exact Hx | |].
  - intros a _. apply NoDup_flat_map; [exact Hx | |].
    + intros b _. apply NoDup_map_injective; [|exact Hx].
      intros c c' [= ->]. reflexivity.
    + intros b b' p _ _ H1 H2.
      apply in_map_iff in H1 as (c & <- & _).
      apply in_map_iff in H2 as (c' & [= ->] & _). reflexivity.
  - intros a a' p _ _ H1 H2.
    apply in_flat_map in H1 as (b & _ & H1). apply in_map_iff in H1 as (c & <- & _).
    apply in_flat_map in H2 as (b' & _ & H2). apply in_map_iff in H2 as (c' & [= ->] & _).
    reflexivity.
Qed.

Lemma NoDup_firstn_of A (l : list A) n : NoDup l -> NoDup (firstn n l).
Proof.
  intros H. rewrite <- (firstn_skipn n l) in H.
  now apply NoDup_app_remove_r in H.
Qed.

Lemma In_firstn_of A (l : list A) n x : In x (firstn n l) -> In x l.
Proof.
  intros H. rewrite <- (firstn_skipn n l). apply in_or_app. now left.
Qed.

Lemma mie_positions m spacing sigma name :
  particles_position (mie_fluid_snapshot m spacing sigma name)
  = firstn (4 * m ^ 3)
      (product3 (linspace_open (- (INR (sites_per_edge m) * (spacing * sigma)) / 2)
                               (INR (sites_per_edge m) * (spacing * sigma) / 2)
                               (sites_per_edge m))).
Proof.
  unfold mie_fluid_snapshot, sites_per_edge. cbv zeta. cbn [particles_position].
  now rewrite !Rmult_assoc.
Qed.

Lemma mie_positions_length m spacing sigma name :
  length (particles_position (mie_fluid_snapshot m spacing sigma name))
  = (4 * m ^ 3)%nat.
Proof.
  rewrite mie_positions. apply firstn_length_le.
  rewrite product3_length, linspace_open_length.
  apply sites_enough.
Qed.

(** The smallest snapshot holds a particle. *)
Lemma mie_positions_inhabited :
  exists p, In p (particles_position (mie_fluid_snapshot 1 1 1 "A")).
Proof.
  pose proof (mie_positions_length 1 1 1 "A") as Hlen.
  destruct (particles_position (mie_fluid_snapshot 1 1 1 "A")) as [|p l];
    [discriminate Hlen | exists p; now left].
Qed.

(** X18. The snapshot [mie_fluid] writes is consistent: it declares
    4 m^3 particles and carries exactly that many positions and type ids
    (the lattice always has enough sites to take the positions from). *)
Theorem mie_fluid_snapshot_counts m spacing sigma name :
  let s := mie_fluid_snapshot m spacing sigma name in
  particles_N s = (4 * m ^ 3)%nat /\
  length (particles_position s) = particles_N s /\
  length (particles_typeid s) = particles_N s.
Proof.
  cbv zeta. split; [reflexivity|]. split.
  - apply mie_positions_length.
  - cbn [particles_typeid particles_N mie_fluid_snapshot]. apply repeat_length.
Qed.

(** X19. Every position of the snapshot is a site of the cubic lattice
    with lattice constant [spacing * sigma] that starts at the lower corner
    of the box: each coordinate is -L/2 + i * spacing * sigma for some
    i < K, with L = K * spacing * sigma the box edge. *)
Theorem mie_fluid_snapshot_sites m spacing sigma name p :
  In p (particles_position (mie_fluid_snapshot m spacing sigma name)) ->
  let K := sites_per_edge m in
  let h := spacing * sigma in
  let site := fun i => - (INR K * h) / 2 + INR i * h in
  exists i j k,
    (i < K)%nat /\ (j < K)%nat /\ (k < K)%nat /\
    p = (site i, site j, site k).
Proof.
  rewrite mie_positions. intros Hin. cbv zeta.
  apply In_firstn_of in Hin.
  destruct p as [[a b] c]. apply product3_In in Hin as (Ha & Hb & Hc).
  apply edge_grid in Ha as (i & Hi & ->).
  apply edge_grid in Hb as (j & Hj & ->).
  apply edge_grid in Hc as (k & Hk & ->).
  exists i, j, k. auto.
Qed.

(** X20. With a positive lattice constant every particle lies inside
    the box: each coordinate is at least -L/2 and strictly below L/2, so no
    particle sits on the upper faces, which the periodic box identifies
    with the lower ones. *)
Theorem mie_fluid_snapshot_inside_box m spacing sigma name a b c :
  0 < spacing * sigma ->
  In (a, b, c) (particles_position (mie_fluid_snapshot m spacing sigma name)) ->
  let L := INR (sites_per_edge m) * spacing * sigma in
  (- L / 2 <= a < L / 2) /\ (- L / 2 <= b < L / 2) /\ (- L / 2 <= c < L / 2).
Proof.
  intros Hh Hin. cbv zeta.
  rewrite mie_positions in Hin. apply In_firstn_of in Hin.
  apply product3_In in Hin as (Ha & Hb & Hc).
  assert (Hone : forall x,
             In x (linspace_open (- (INR (sites_per_edge m) * (spacing * sigma)) / 2)
                                 (INR (sites_per_edge m) * (spacing * sigma) / 2)
                                 (sites_per_edge m)) ->
             - (INR (sites_per_edge m) * spacing * sigma) / 2 <= x
             < INR (sites_per_edge m) * spacing * sigma / 2).
  { intros x Hx. apply edge_grid in Hx as (i & Hi & ->).
    assert (0 <= INR i) by apply pos_INR.
    assert (INR i + 1 <= INR (sites_per_edge m)).
    { rewrite <- S_INR. apply le_INR. lia. }
    rewrite Rmult_assoc. split; nra. }
  auto.
Qed.

(** X21. With a non-zero lattice constant no two particles of the
    snapshot share a position. *)
Theorem mie_fluid_snapshot_distinct m spacing sigma name :
  spacing * sigma <> 0 ->
  NoDup (particles_position (mie_fluid_snapshot m spacing sigma name)).
Proof.
  intros Hh. rewrite mie_positions.
  apply NoDup_firstn_of, product3_NoDup, edge_grid_NoDup. exact Hh.
Qed.

(** X22. [table_fluid] starts from the snapshot [mie_fluid] builds for
    sigma = 1. *)
Theorem table_fluid_snapshot_mie m spacing name :
  table_fluid_snapshot m spacing name = mie_fluid_snapshot m spacing 1 name.
Proof.
  unfold table_fluid_snapshot, mie_fluid_snapshot. cbv zeta.
  now rewrite !Rmult_1_r.
Qed.

Lemma mie_fluid_snapshot_sites_witness :
  exists p i j k,
    In p (particles_position (mie_fluid_snapshot 1 1 1 "A")) /\
    (i < sites_per_edge 1)%nat /\ (j < sites_per_edge 1)%nat /\
    (k < sites_per_edge 1)%nat /\
    p = (- (INR (sites_per_edge 1) * (1 * 1)) / 2 + INR i * (1 * 1),
         - (INR (sites_per_edge 1) * (1 * 1)) / 2 + INR j * (1 * 1),
         - (INR (sites_per_edge 1) * (1 * 1)) / 2 + INR k * (1 * 1)).
Proof.
  pose proof mie_positions_inhabited as Hex.
  destruct Hex as (p & Hp).
  destruct (mie_fluid_snapshot_sites 1 1 1 "A" p Hp) as (i & j & k & H).
  exists p, i, j, k. split; [exact Hp | exact H].
Defined.

Lemma mie_fluid_snapshot_inside_box_witness :
  exists a b c,
    In (a, b, c) (particles_position (mie_fluid_snapshot 1 1 1 "A")) /\
    - (INR (sites_per_edge 1) * 1 * 1) / 2 <= a < INR (sites_per_edge 1) * 1 * 1 / 2.
Proof.
  pose proof mie_positions_inhabited as Hex.
  destruct Hex as ([[a b] c] & Hin).
  assert (H : 0 < 1 * 1) by lra.
  exists a, b, c. split; [exact Hin|].
  exact (proj1 (mie_fluid_snapshot_inside_box 1 1 1 "A" a b c H Hin)).
Defined.

Lemma mie_fluid_snapshot_distinct_witness :
  NoDup (particles_position (mie_fluid_snapshot 1 1 1 "A")).
Proof.
  apply (mie_fluid_snapshot_distinct 1 1 1 "A"). lra.
Defined.

End LatticeFacts.
